(** * The Backrooms: the per-frame game loop, embedded and verified

    Shallow embedding of the game component of [src/unnamed/part_000]
    (the React component [App] with its refs, its [jump] / [handleStart]
    actions, the level-building effect and the [animate] frame callback).

    Conventions of the embedding.

    - A JavaScript [number] is an exact rational ([Q]); rounding of IEEE
      doubles, NaN and infinities are outside the model.  Comparisons are
      the boolean tests [Qltb] / [Qleb]; [Math.min], [Math.max] and
      [Math.abs] are [Qmin], [Qmax] and [Qabs].
    - [Math.sin], [Math.cos], [Math.hypot] and [Math.PI] have no rational
      closed form: they are the fields of the class [Numerics], and every
      definition and theorem that needs them is parametric in it.
    - The refs ([playerRef], [wallsRef], ...), the React state
      ([gameState], [level], [flashlightOn]) and the variables captured by
      the running effect ([doorX], [doorZ], [pLight.intensity]) are the
      fields of one record [Game], threaded explicitly.
    - What a frame reads from its environment ([clock.getDelta()],
      [Date.now()], [Math.random()]) is the record [Frame]; the values
      [Math.random()] returns while a level is built are a tape
      [nat -> Q].
    - Scene graph, textures, camera, DOM and the audio oscillators are
      collaborators and are not modelled; of the audio graph only the
      value of the sanity gain node is kept. *)

From Stdlib Require Import QArith Qminmax Qabs Qround Lqa List Bool ZArith Lia String.
Import ListNotations.
Open Scope Q_scope.

(** ** Numbers *)

Definition Qltb (a b : Q) : bool := negb (Qle_bool b a).
Definition Qleb (a b : Q) : bool := Qle_bool a b.

(** The part of [Math] that is not rational arithmetic. *)
Class Numerics : Type := {
  Math_sin : Q -> Q;
  Math_cos : Q -> Q;
  Math_hypot : Q -> Q -> Q;
  Math_PI : Q
}.

(** ** Types (lines 5-29) *)

Record PlayerState : Type := mkPlayer {
  x : Q;
  z : Q;
  y : Q;       (* vertical position *)
  vy : Q;      (* vertical velocity *)
  dir : Q;
  pitch : Q;
  speed : Q;
  radius : Q
}.

Record InputState : Type := mkInput {
  fwd : Q;
  side : Q;
  rotX : Q;
  rotY : Q
}.

Record Wall : Type := mkWall {
  minX : Q;
  maxX : Q;
  minZ : Q;
  maxZ : Q
}.

Inductive GameState : Type := MENU | PLAYING | WON | LOST.

(** The mutable cells of the component. [sanityAudioGainRef] holds the
    [gain.value] of the node, [None] while the ref is [null]. *)
Record Game : Type := mkGame {
  gameState : GameState;
  level : nat;
  isFlashlightOnRef : bool;
  startTimeRef : Q;
  isGameEndedRef : bool;
  playerRef : PlayerState;
  flashlightTimerRef : Q;
  sanityAudioGainRef : option Q;
  inputRef : InputState;
  wallsRef : list Wall;
  doorX : Q;
  doorZ : Q;
  pLight_intensity : Q
}.

Definition set_gameState (v : GameState) (g : Game) : Game :=
  mkGame v (level g) (isFlashlightOnRef g) (startTimeRef g) (isGameEndedRef g)
    (playerRef g) (flashlightTimerRef g) (sanityAudioGainRef g) (inputRef g)
    (wallsRef g) (doorX g) (doorZ g) (pLight_intensity g).

Definition set_level (v : nat) (g : Game) : Game :=
  mkGame (gameState g) v (isFlashlightOnRef g) (startTimeRef g) (isGameEndedRef g)
    (playerRef g) (flashlightTimerRef g) (sanityAudioGainRef g) (inputRef g)
    (wallsRef g) (doorX g) (doorZ g) (pLight_intensity g).

Definition set_isFlashlightOn (v : bool) (g : Game) : Game :=
  mkGame (gameState g) (level g) v (startTimeRef g) (isGameEndedRef g)
    (playerRef g) (flashlightTimerRef g) (sanityAudioGainRef g) (inputRef g)
    (wallsRef g) (doorX g) (doorZ g) (pLight_intensity g).

Definition set_startTime (v : Q) (g : Game) : Game :=
  mkGame (gameState g) (level g) (isFlashlightOnRef g) v (isGameEndedRef g)
    (playerRef g) (flashlightTimerRef g) (sanityAudioGainRef g) (inputRef g)
    (wallsRef g) (doorX g) (doorZ g) (pLight_intensity g).

Definition set_isGameEnded (v : bool) (g : Game) : Game :=
  mkGame (gameState g) (level g) (isFlashlightOnRef g) (startTimeRef g) v
    (playerRef g) (flashlightTimerRef g) (sanityAudioGainRef g) (inputRef g)
    (wallsRef g) (doorX g) (doorZ g) (pLight_intensity g).

Definition set_player (v : PlayerState) (g : Game) : Game :=
  mkGame (gameState g) (level g) (isFlashlightOnRef g) (startTimeRef g)
    (isGameEndedRef g) v (flashlightTimerRef g) (sanityAudioGainRef g)
    (inputRef g) (wallsRef g) (doorX g) (doorZ g) (pLight_intensity g).

Definition set_flashlightTimer (v : Q) (g : Game) : Game :=
  mkGame (gameState g) (level g) (isFlashlightOnRef g) (startTimeRef g)
    (isGameEndedRef g) (playerRef g) v (sanityAudioGainRef g) (inputRef g)
    (wallsRef g) (doorX g) (doorZ g) (pLight_intensity g).

Definition set_sanityGain (v : option Q) (g : Game) : Game :=
  mkGame (gameState g) (level g) (isFlashlightOnRef g) (startTimeRef g)
    (isGameEndedRef g) (playerRef g) (flashlightTimerRef g) v (inputRef g)
    (wallsRef g) (doorX g) (doorZ g) (pLight_intensity g).

Definition set_input (v : InputState) (g : Game) : Game :=
  mkGame (gameState g) (level g) (isFlashlightOnRef g) (startTimeRef g)
    (isGameEndedRef g) (playerRef g) (flashlightTimerRef g)
    (sanityAudioGainRef g) v (wallsRef g) (doorX g) (doorZ g)
    (pLight_intensity g).

Definition set_scene (ws : list Wall) (dx dz i : Q) (g : Game) : Game :=
  mkGame (gameState g) (level g) (isFlashlightOnRef g) (startTimeRef g)
    (isGameEndedRef g) (playerRef g) (flashlightTimerRef g)
    (sanityAudioGainRef g) (inputRef g) ws dx dz i.

Definition set_intensity (v : Q) (g : Game) : Game :=
  mkGame (gameState g) (level g) (isFlashlightOnRef g) (startTimeRef g)
    (isGameEndedRef g) (playerRef g) (flashlightTimerRef g)
    (sanityAudioGainRef g) (inputRef g) (wallsRef g) (doorX g) (doorZ g) v.

Definition set_x (v : Q) (p : PlayerState) : PlayerState :=
  mkPlayer v (z p) (y p) (vy p) (dir p) (pitch p) (speed p) (radius p).

Definition set_z (v : Q) (p : PlayerState) : PlayerState :=
  mkPlayer (x p) v (y p) (vy p) (dir p) (pitch p) (speed p) (radius p).

Definition set_y (v : Q) (p : PlayerState) : PlayerState :=
  mkPlayer (x p) (z p) v (vy p) (dir p) (pitch p) (speed p) (radius p).

Definition set_vy (v : Q) (p : PlayerState) : PlayerState :=
  mkPlayer (x p) (z p) (y p) v (dir p) (pitch p) (speed p) (radius p).

(** ** Collision (lines 383-392) *)

(** The test of one wall inside the loop of [checkCollision]. *)
Definition hitsWall (r px pz : Q) (w : Wall) : bool :=
  Qltb (minX w) (px + r) && Qltb (px - r) (maxX w) &&
  Qltb (minZ w) (pz + r) && Qltb (pz - r) (maxZ w).

(** [checkCollision (x, z)] reading [wallsRef.current] and
    [playerRef.current.radius], here passed as [ws] and [r]. *)
Fixpoint checkCollision (ws : list Wall) (r px pz : Q) : bool :=
  match ws with
  | [] => false
  | w :: ws' => if hitsWall r px pz w then true else checkCollision ws' r px pz
  end.

(** ** Jump (lines 225-229) *)

Definition jump (p : PlayerState) : PlayerState :=
  if Qleb (y p) 0.01 then set_vy 0.15 p else p.

(** ** Gravity and floor (lines 470-478) *)

Definition gravity (p : PlayerState) : PlayerState :=
  let p1 := set_vy (vy p - 0.015) p in
  let p2 := set_y (y p1 + vy p1) p1 in
  if Qltb (y p2) 0 then set_vy 0 (set_y 0 p2) else p2.

(** ** Level building (lines 320-361) *)

(** The bounds [addWall (x, z, w, d)] pushes on [newWalls]. *)
Definition addWall (cx cz w d : Q) : Wall :=
  mkWall (cx - w / 2) (cx + w / 2) (cz - d / 2) (cz + d / 2).

Definition outerWalls : list Wall :=
  [ addWall 0 (-25) 51 1; addWall 0 25 51 1;
    addWall (-25) 0 1 51; addWall 25 0 1 51 ].

Definition wallCount (lvl : nat) : nat :=
  if Nat.eqb lvl 0 then 25%nat else 35%nat.

(** The loop [for (i = 0; i < wallCount; i++)]: [n] iterations are left,
    [k] is the position on the tape of the next [Math.random()], and
    ([dX], [dZ]) is the door.  A [continue] places nothing. *)
Fixpoint innerWalls (rnd : nat -> Q) (k : nat) (dX dZ : Q) (n : nat)
  : list Wall :=
  match n with
  | O => []
  | S n' =>
      let rx := rnd k * 40 - 20 in
      let rz := rnd (S k) * 40 - 20 in
      let rw := if Qltb 0.5 (rnd (S (S k))) then 4 else 1 in
      let rd := if Qeq_bool rw 1 then 4 else 1 in
      let rest := innerWalls rnd (3 + k) dX dZ n' in
      if Qltb (Qabs rx) 4 && Qltb (Qabs rz) 4 then rest
      else if Qltb (Qabs (rx - dX)) 4 && Qltb (Qabs (rz - dZ)) 4 then rest
      else addWall rx rz rw rd :: rest
  end.

(** ** What a frame reads from outside *)

Record Frame : Type := mkFrame {
  clock_getDelta : Q;   (* [clock.getDelta()], seconds *)
  Date_now : Q;         (* [Date.now()] of the timer logic, milliseconds *)
  Date_now_door : Q;    (* [Date.now()] of the door logic, milliseconds *)
  Math_random : Q       (* [Math.random()] of the flicker *)
}.

Definition initialPlayer : PlayerState :=
  mkPlayer 0 0 0 0 0 0 0.12 0.4.

Definition initialInput : InputState := mkInput 0 0 0 0.

(** The component before anything happened: the menu is shown, no scene
    exists (the scene fields are placeholders until the effect runs). *)
Definition initialGame : Game :=
  mkGame MENU 0 true 0 false initialPlayer 0 None initialInput [] 0 0 0.

(** [initAudio] (lines 137-212), reduced to the sanity gain: nothing
    happens once the audio context exists, else the node starts silent. *)
Definition initAudio (g : Game) : Game :=
  match sanityAudioGainRef g with
  | Some _ => g
  | None => set_sanityGain (Some 0) g
  end.

(** [handleStart] (lines 667-686). *)
Definition handleStart (now : Q) (g : Game) : Game :=
  let g := set_gameState PLAYING g in
  let g := set_level 0 g in
  let g := set_startTime now g in
  let g := set_flashlightTimer 0 g in
  let g := set_isFlashlightOn true g in
  let g := set_player initialPlayer g in
  let g := set_input initialInput g in
  initAudio g.

(** [toggleFlashlight] (lines 221-223) with the effect that copies the
    React state into [isFlashlightOnRef] (lines 217-219). *)
Definition toggleFlashlight (g : Game) : Game :=
  set_isFlashlightOn (negb (isFlashlightOnRef g)) g.

(** [handleKeyDown] and [handleKeyUp] (lines 628-639). *)
Definition handleKeyDown (key code : string) (g : Game) : Game :=
  let i := inputRef g in
  let i := if String.eqb key "w" then mkInput 1 (side i) (rotX i) (rotY i) else i in
  let i := if String.eqb key "s" then mkInput (-1) (side i) (rotX i) (rotY i) else i in
  let i := if String.eqb key "a" then mkInput (fwd i) 1 (rotX i) (rotY i) else i in
  let i := if String.eqb key "d" then mkInput (fwd i) (-1) (rotX i) (rotY i) else i in
  let g := set_input i g in
  let g := if String.eqb code "Space" then set_player (jump (playerRef g)) g else g in
  if String.eqb key "e" || String.eqb key "E" then toggleFlashlight g else g.

Definition handleKeyUp (key : string) (g : Game) : Game :=
  let i := inputRef g in
  let i := if String.eqb key "w" || String.eqb key "s"
           then mkInput 0 (side i) (rotX i) (rotY i) else i in
  let i := if String.eqb key "a" || String.eqb key "d"
           then mkInput (fwd i) 0 (rotX i) (rotY i) else i in
  set_input i g.

(** ** The frame callback (lines 394-514) *)

(** Flashlight and sanity (lines 402-429). *)
Definition flashlightLogic (fr : Frame) (g : Game) : Game :=
  if isFlashlightOnRef g then
    let g := set_intensity (if Nat.eqb (level g) 0 then 0.8 else 1.0) g in
    let g := set_flashlightTimer (flashlightTimerRef g + clock_getDelta fr) g in
    if Qltb 15 (flashlightTimerRef g) then
      let g := set_sanityGain
                 (option_map (fun currentVol => Qmin 0.2 (currentVol + 0.001))
                    (sanityAudioGainRef g)) g in
      if Qltb 0.8 (Math_random fr)
      then set_intensity (pLight_intensity g * 0.5) g else g
    else
      set_sanityGain (option_map (fun _ => 0) (sanityAudioGainRef g)) g
  else
    let g := set_intensity 0 g in
    let g := set_flashlightTimer
               (Qmax 0 (flashlightTimerRef g - clock_getDelta fr * 2)) g in
    set_sanityGain
      (option_map (fun currentVol => Qmax 0 (currentVol - 0.01))
         (sanityAudioGainRef g)) g.

(** [remaining] of the timer logic (lines 432-433). *)
Definition remaining (fr : Frame) (g : Game) : Q :=
  let elapsed := (Date_now fr - startTimeRef g) / 1000 in
  Qmax 0 (300 - elapsed).

(** The two guarded assignments of the movement (lines 491-497): the
    second test reads [player.x] after the first assignment. *)
Definition resolveAxes (ws : list Wall) (dx dz : Q) (p : PlayerState)
  : PlayerState :=
  let p := if negb (checkCollision ws (radius p) (x p - dx) (z p))
           then set_x (x p - dx) p else p in
  if negb (checkCollision ws (radius p) (x p) (z p - dz))
  then set_z (z p - dz) p else p.

Section WithNumerics.
Context {N : Numerics}.

(** The effect of lines 232-525 up to its closing call [animate()],
    with [mountRef] mounted: it only runs in [PLAYING], clears the
    terminal flag, places the door and replaces the walls; [pLight] is
    created at 0.8.  [rnd] holds what [Math.random()] returns from
    [doorAngle] on, in call order.  The closing [animate()] is the first
    [Tick] of the new scene. *)
Definition sceneEffect (rnd : nat -> Q) (g : Game) : Game :=
  match gameState g with
  | PLAYING =>
      let g := set_isGameEnded false g in
      let doorAngle := rnd 0%nat * Math_PI * 2 in
      let doorDist := 15 + rnd 1%nat * 7 in
      let dX := Math_sin doorAngle * doorDist in
      let dZ := Math_cos doorAngle * doorDist in
      set_scene (outerWalls ++ innerWalls rnd 2 dX dZ (wallCount (level g)))
        dX dZ 0.8 g
  | _ => g
  end.

(** [dx] and [dz] of the movement (lines 481-489). *)
Definition moveDelta (input : InputState) (p : PlayerState) : Q * Q :=
  let speed := speed p in
  let cos := Math_cos (rotY input) in
  let sin := Math_sin (rotY input) in
  let dz := fwd input * cos - side input * sin in
  let dx := fwd input * sin + side input * cos in
  (dx * speed, dz * speed).

Definition movement (input : InputState) (ws : list Wall) (p : PlayerState)
  : PlayerState :=
  let (dx, dz) := moveDelta input p in resolveAxes ws dx dz p.

(** [distToDoor < 1.5] (lines 454-455). *)
Definition nearDoor (g : Game) : bool :=
  let player := playerRef g in
  let distToDoor :=
    Math_hypot (x player - doorX g) (z player - doorZ g) in
  Qltb distToDoor 1.5.

(** Door logic (lines 455-468), the branch taken when [nearDoor]. *)
Definition doorLogic (fr : Frame) (g : Game) : Game :=
  if Nat.eqb (level g) 0 then
    let g := set_level 1 g in
    let g := set_player (set_z 0 (set_x 0 (playerRef g))) g in
    let g := set_startTime (Date_now_door fr) g in
    set_flashlightTimer 0 g
  else
    set_gameState WON (set_isGameEnded true g).

Definition animate (fr : Frame) (g : Game) : Game :=
  if isGameEndedRef g then g
  else
    let g := flashlightLogic fr g in
    if Qleb (remaining fr g) 0 then
      set_gameState LOST (set_isGameEnded true g)
    else if nearDoor g then doorLogic fr g
    else
      let player := gravity (playerRef g) in
      set_player (movement (inputRef g) (wallsRef g) player) g.

(** ** The component as a transition system *)

(** What can happen to the component.  A handler only exists while the
    element or listener that carries it is mounted, which [step]
    guards by [gameState]: the start button in the menu, the restart
    buttons on the end screens, keys and HUD buttons while playing, and
    the frame callback from the first scene on (a frame may still fire
    after the game ended, before the effect is cleaned up).  [Pointer]
    stands for the mouse and touch handlers (lines 544-625, 641-647),
    which only write [inputRef]; it carries the value written. *)
Inductive Event : Type :=
| Start (now : Q) (rnd : nat -> Q)
| Restart
| Tick (fr : Frame) (rnd : nat -> Q)
| KeyDown (key code : string)
| KeyUp (key : string)
| JumpButton
| LightButton
| Pointer (i : InputState).

Definition sameDeps (g g' : Game) : bool :=
  Nat.eqb (level g) (level g') &&
  match gameState g, gameState g' with
  | MENU, MENU | PLAYING, PLAYING | WON, WON | LOST, LOST => true
  | _, _ => false
  end.

(** After a handler changed [gameState] or [level] React runs the
    effect again, with [rnd] the tape of that run.  The commit is taken
    to follow the handler at once, so that [level] is also the [level]
    the running effect captured. *)
Definition rerender (rnd : nat -> Q) (g g' : Game) : Game :=
  if sameDeps g g' then g' else sceneEffect rnd g'.

Definition step (g : Game) (e : Event) : Game :=
  match e, gameState g with
  | Start now rnd, MENU => rerender rnd g (handleStart now g)
  | Restart, (WON | LOST) => set_gameState MENU g
  | Tick fr rnd, (PLAYING | WON | LOST) => rerender rnd g (animate fr g)
  | KeyDown key code, PLAYING => handleKeyDown key code g
  | KeyUp key, PLAYING => handleKeyUp key g
  | JumpButton, PLAYING => set_player (jump (playerRef g)) g
  | LightButton, PLAYING => toggleFlashlight g
  | Pointer i, PLAYING => set_input i g
  | _, _ => g
  end.

Definition run (g : Game) (es : list Event) : Game := fold_left step es g.

Inductive reachable : Game -> Prop :=
| reachable_init : reachable initialGame
| reachable_step : forall g e, reachable g -> reachable (step g e).

End WithNumerics.

(** ** A rational instance of the numerics, and a concrete play-through

    Used to run the model on explicit inputs: truncated series for sine
    and cosine (exact at 0) and a square root rounded down to three
    decimals for [Math.hypot]. *)

Definition Qsqrt_down (a : Q) : Q :=
  inject_Z (Z.sqrt (Qfloor (a * 1000000))) / 1000.

Definition sampleNumerics : Numerics := {|
  Math_sin := fun a => a - a * a * a / 6;
  Math_cos := fun a => 1 - a * a / 2;
  Math_hypot := fun a b => Qsqrt_down (a * a + b * b);
  Math_PI := 3.14159
|}.

(** A tape that puts the door at angle 0 and distance 15, i.e. at
    (0, 15), and whose wall candidates all fall on the map centre. *)
Definition centreTape : nat -> Q :=
  fun k => match k with O | S O => 0 | _ => 0.5 end.

(** A frame 16 s after the previous one, 1 s into the countdown. *)
Definition slowFrame : Frame := mkFrame 16 1000 1000 0.

(** The same frame read when the countdown is over. *)
Definition lateFrame : Frame := mkFrame 16 300000 300000 0.

(** A frame 1/60 s after the previous one. *)
Definition quickFrame : Frame := mkFrame (1 # 60) 1000 1000 0.

(** Just started, nothing else happened. *)
Definition justStarted : Game :=
  step (N := sampleNumerics) initialGame (Start 0 centreTape).

(** Started, then a frame that finds the countdown over. *)
Definition timedOut : Game :=
  run (N := sampleNumerics) initialGame
    [Start 0 centreTape; Tick lateFrame centreTape].

(** Level 0 of that start after a walk backwards with "s" held: the
    player stands at (0, 13.56), 1.44 from the door at (0, 15); the
    flashlight was on long enough for the voices to be at 0.19 and has
    just been switched off. *)
Definition doorStep : Game :=
  mkGame PLAYING 0 false 0 false
    (mkPlayer 0 13.56 0 0 0 0 0.12 0.4)
    20 (Some 0.19) (mkInput (-1) 0 0 0) outerWalls 0 15 0.

(** The same place on level 1. *)
Definition lastDoorStep : Game := set_level 1 doorStep.

(** Mid-level, the flashlight switched back on after a cool-down: timer
    at 3 s, the voices still at 0.19. *)
Definition relit : Game :=
  mkGame PLAYING 0 true 0 false
    (mkPlayer 0 5 0 0 0 0 0.12 0.4)
    3 (Some 0.19) initialInput outerWalls 0 15 0.

(** Started, one slow frame raised the voices to 0.001, then the
    flashlight was switched off. *)
Definition darkStart : Game :=
  run (N := sampleNumerics) initialGame
    [Start 0 centreTape; Tick slowFrame centreTape; LightButton].

(** Holding "s" and "d": backwards and to the right. *)
Definition diagonalInput : InputState := mkInput (-1) (-1) 0 0.

(** A player in mid-air. *)
Definition airborne : PlayerState := mkPlayer 0 0 1 0 0 0 0.12 0.4.

(** The same start played out: "s" is pressed, then 113 slow frames
    pass with the key held and the flashlight on, and finally the
    flashlight is switched off.  These games are never evaluated; what
    holds of them is proved frame by frame ([walking]). *)
Definition keyHeld : Game :=
  step (N := sampleNumerics) justStarted (KeyDown "s" "KeyS").

Definition walkedFor (k : nat) : Game :=
  run (N := sampleNumerics) keyHeld (repeat (Tick slowFrame centreTape) k).

Definition atTheDoor : Game := walkedFor 113.

Definition atTheDoorDark : Game :=
  step (N := sampleNumerics) atTheDoor LightButton.

(** A game lost after two slow frames, then restarted. *)
Definition restarted : Game :=
  run (N := sampleNumerics) initialGame
    [Start 0 centreTape; Tick slowFrame centreTape;
     Tick lateFrame centreTape; Restart; Start 400000 centreTape].

(** A corridor: one wall right of the player, who pushes diagonally
    into it with [dx = dz = -0.12]. *)
Definition corridorWall : Wall := mkWall (1 # 2) 1 (-5) 5.

(** A pillar that only blocks the column the player slides into. *)
Definition pillar : Wall := mkWall (1 # 2) 1 (1 # 2) 1.

(** One unit square wall; the point (-0.4, 0.5) with radius 0.4 touches
    it from the left ([x + radius] equals [minX]). *)
Definition unitWall : Wall := mkWall 0 1 0 1.

(** ** The collision contract in the words of the specification *)

(** The open test the code performs on one wall. *)
Definition overlapsStrict (r px pz : Q) (w : Wall) : Prop :=
  minX w < px + r /\ px - r < maxX w /\
  minZ w < pz + r /\ pz - r < maxZ w.

(** The specification's wording: the centre lies in the wall's bounds
    expanded by the radius, bounds included. *)
Definition overlapsInclusive (r px pz : Q) (w : Wall) : Prop :=
  minX w - r <= px /\ px <= maxX w + r /\
  minZ w - r <= pz /\ pz <= maxZ w + r.

(** ** Consistency of the flags, the gain and the floor *)

Definition isTick (e : Event) : Prop :=
  match e with Tick _ _ => True | _ => False end.

(** The walk after [q] frames: the player is [0.12 * q] up the z axis on
    level 0, only the boundary walls stand, the door is at (0, 15), and
    the flashlight has been on for [16 * q] seconds. *)
Record walking (q : Q) (g : Game) : Prop := {
  w_state : gameState g = PLAYING;
  w_live : isGameEndedRef g = false;
  w_level : level g = 0%nat;
  w_light : isFlashlightOnRef g = true;
  w_start : startTimeRef g == 0;
  w_x : x (playerRef g) == 0;
  w_z : z (playerRef g) == 0.12 * q;
  w_y : y (playerRef g) = 0;
  w_vy : vy (playerRef g) = 0;
  w_speed : speed (playerRef g) = 0.12;
  w_radius : radius (playerRef g) = 0.4;
  w_input : inputRef g = mkInput (-1) 0 0 0;
  w_walls : wallsRef g = outerWalls;
  w_doorX : doorX g == 0;
  w_doorZ : doorZ g == 15;
  w_timer : flashlightTimerRef g == 16 * q;
  w_gain : exists v, sanityAudioGainRef g = Some v /\ v == 0.001 * q
}.

Record consistent (g : Game) : Prop := {
  playing_live : gameState g = PLAYING -> isGameEndedRef g = false;
  over_frozen :
    gameState g = WON \/ gameState g = LOST -> isGameEndedRef g = true;
  gain_range :
    forall v, sanityAudioGainRef g = Some v -> 0 <= v /\ v <= 0.2;
  above_floor : 0 <= y (playerRef g);
  two_levels : level g = 0%nat \/ level g = 1%nat
}.

(** ** Touch and mouse look (lines 74-84, 544-625, 641-647)

    The handlers of the input effect work on the touch refs, on
    [inputRef] and on the joystick element; they are modelled on the
    record [Controls].  Of the joystick element only its [display] is
    kept ([joyShown]); its position and the stick's transform are
    presentation. *)

(** [Math.sqrt] and [Math.atan2], used by the joystick only. *)
Class Geometry : Type := {
  Math_sqrt : Q -> Q;
  Math_atan2 : Q -> Q -> Q
}.

(** One entry of [e.changedTouches]. *)
Record Touch : Type := mkTouch {
  identifier : Z;
  clientX : Q;
  clientY : Q;
  target_id : string
}.

Record Window : Type := mkWindow {
  innerWidth : Q;
  innerHeight : Q
}.

Record Controls : Type := mkControls {
  touchIdLeft : option Z;
  touchIdRight : option Z;
  startX : Q;
  startY : Q;
  lastLookX : Q;
  lastLookY : Q;
  joyShown : bool;
  ctlInput : InputState
}.

(** The refs as the component creates them (lines 68, 75-80); the
    joystick base is rendered hidden. *)
Definition initialControls : Controls :=
  mkControls None None 0 0 0 0 false initialInput.

(** [t.identifier === ref.current]. *)
Definition sameTouch (t : Touch) (slot : option Z) : bool :=
  match slot with
  | Some i => Z.eqb (identifier t) i
  | None => false
  end.

(** [ref.current === null]. *)
Definition isNull (slot : option Z) : bool :=
  match slot with Some _ => false | None => true end.

(** [!ref.current]: [null] and the number 0 are both falsy. *)
Definition isFalsy (slot : option Z) : bool :=
  match slot with
  | Some i => Z.eqb i 0
  | None => true
  end.

(** The body of the loop of [handleTouchStart] (lines 549-578). *)
Definition touchStart1 (w : Window) (c : Controls) (t : Touch) : Controls :=
  let halfScreen := innerWidth w / 2 in
  let bottomArea := innerHeight w - 150 in
  if String.eqb (target_id t) "btn-jump" || String.eqb (target_id t) "btn-light"
  then c
  else
    let c :=
      if Qltb (clientX t) halfScreen && Qltb (clientY t) bottomArea
         && isNull (touchIdLeft c)
      then mkControls (Some (identifier t)) (touchIdRight c)
             (clientX t) (clientY t) (lastLookX c) (lastLookY c)
             true (ctlInput c)
      else c in
    if Qltb halfScreen (clientX t) && Qltb (clientY t) bottomArea
       && isNull (touchIdRight c)
    then mkControls (touchIdLeft c) (Some (identifier t))
           (startX c) (startY c) (clientX t) (clientY t)
           (joyShown c) (ctlInput c)
    else c.

Definition handleTouchStart (w : Window) (changedTouches : list Touch)
           (c : Controls) : Controls :=
  fold_left (touchStart1 w) changedTouches c.

(** The look half of the loop of [handleTouchMove] (lines 601-609). *)
Definition touchLook (c : Controls) (t : Touch) : Controls :=
  if sameTouch t (touchIdRight c) then
    let dx := clientX t - lastLookX c in
    let dy := clientY t - lastLookY c in
    let i := ctlInput c in
    let rotY' := rotY i - dx * 0.005 in
    let rotX' := rotX i - dy * 0.005 in
    let rotX' := Qmax (-1.5) (Qmin 1.5 rotX') in
    mkControls (touchIdLeft c) (touchIdRight c) (startX c) (startY c)
      (clientX t) (clientY t) (joyShown c)
      (mkInput (fwd i) (side i) rotX' rotY')
  else c.

(** The body of the loop of [handleTouchEnd] (lines 614-624). *)
Definition touchEnd1 (c : Controls) (t : Touch) : Controls :=
  let c :=
    if sameTouch t (touchIdLeft c) then
      mkControls None (touchIdRight c) (startX c) (startY c)
        (lastLookX c) (lastLookY c) false
        (mkInput 0 0 (rotX (ctlInput c)) (rotY (ctlInput c)))
    else c in
  if sameTouch t (touchIdRight c) then
    mkControls (touchIdLeft c) None (startX c) (startY c)
      (lastLookX c) (lastLookY c) (joyShown c) (ctlInput c)
  else c.

Definition handleTouchEnd (changedTouches : list Touch) (c : Controls)
  : Controls :=
  fold_left touchEnd1 changedTouches c.

(** [handleMouseMove] (lines 641-647); [gs] is the [gameState] the
    effect captured. *)
Definition handleMouseMove (gs : GameState) (movementX movementY : Q)
           (c : Controls) : Controls :=
  match gs with
  | PLAYING =>
      if isFalsy (touchIdRight c) then
        let i := ctlInput c in
        let rotY' := rotY i - movementX * 0.002 in
        let rotX' := rotX i - movementY * 0.002 in
        let rotX' := Qmax (-1.5) (Qmin 1.5 rotX') in
        mkControls (touchIdLeft c) (touchIdRight c) (startX c) (startY c)
          (lastLookX c) (lastLookY c) (joyShown c)
          (mkInput (fwd i) (side i) rotX' rotY')
      else c
  | _ => c
  end.

Section WithGeometry.
Context {N : Numerics} {G : Geometry}.

(** The joystick half of the loop of [handleTouchMove] (lines 586-599). *)
Definition touchJoystick (c : Controls) (t : Touch) : Controls :=
  if sameTouch t (touchIdLeft c) then
    let dx := clientX t - startX c in
    let dy := clientY t - startY c in
    let dist := Qmin (Math_sqrt (dx * dx + dy * dy)) 60 in
    let angle := Math_atan2 dy dx in
    let visualX := Math_cos angle * dist in
    let visualY := Math_sin angle * dist in
    let i := ctlInput c in
    mkControls (touchIdLeft c) (touchIdRight c) (startX c) (startY c)
      (lastLookX c) (lastLookY c) (joyShown c)
      (mkInput (- (visualY / 60)) (- (visualX / 60)) (rotX i) (rotY i))
  else c.

Definition touchMove1 (c : Controls) (t : Touch) : Controls :=
  touchLook (touchJoystick c t) t.

Definition handleTouchMove (changedTouches : list Touch) (c : Controls)
  : Controls :=
  fold_left touchMove1 changedTouches c.

End WithGeometry.

(** What the touch and mouse handlers can be called with. *)
Inductive PointerEvent : Type :=
| TouchStart (w : Window) (changedTouches : list Touch)
| TouchMove (changedTouches : list Touch)
| TouchEnd (changedTouches : list Touch)
| MouseMove (movementX movementY : Q).

Definition pointerStep {N : Numerics} {G : Geometry}
           (c : Controls) (e : PointerEvent) : Controls :=
  match e with
  | TouchStart w ts => handleTouchStart w ts c
  | TouchMove ts => handleTouchMove ts c
  | TouchEnd ts => handleTouchEnd ts c
  | MouseMove mx my => handleMouseMove PLAYING mx my c
  end.

(** ** The countdown display (lines 435-445) *)

(** [Math.trunc], which the remainder operator rounds its quotient by. *)
Definition Qtrunc (q : Q) : Z :=
  if Qleb 0 q then Qfloor q else Qceiling q.

(** The JavaScript [a % b]. *)
Definition js_rem (a b : Q) : Q := a - b * inject_Z (Qtrunc (a / b)).

(** The numbers [m] and [s] the display formats, before [toString] and
    [padStart]. *)
Definition timerMinutes (fr : Frame) (g : Game) : Z :=
  Qfloor (remaining fr g / 60).

Definition timerSeconds (fr : Frame) (g : Game) : Z :=
  Qfloor (js_rem (remaining fr g) 60).

(** The test that turns the display red. *)
Definition timerRed (fr : Frame) (g : Game) : bool :=
  Qltb (remaining fr g) 30 || Qltb 15 (flashlightTimerRef g).

(** ** The ambience buffer of [initAudio] (lines 145-154) *)

(** The samples the loop writes, [rs] being the values [Math.random()]
    returns and [lastOut] the running output. *)
Fixpoint brownNoise (rs : list Q) (lastOut : Q) : list Q :=
  match rs with
  | [] => []
  | r :: rs' =>
      let white := r * 2 - 1 in
      let out := (lastOut + 0.02 * white) / 1.02 in
      out * 3.5 :: brownNoise rs' out
  end.

(** ** Several frames of the flashlight logic *)

Definition flashlightFrames (frs : list Frame) (g : Game) : Game :=
  fold_left (fun g fr => flashlightLogic fr g) frs g.

(** ** Scenes *)

(** The wall sets the effect can store in [wallsRef]. *)
Definition isScene (ws : list Wall) : Prop :=
  exists (rnd : nat -> Q) (dX dZ : Q) (n : nat),
    ws = outerWalls ++ innerWalls rnd 2 dX dZ n.

(** Inside the box of half-width [d] around ([cx], [cz]). *)
Definition inBox (cx cz d px pz : Q) : Prop :=
  Qabs (px - cx) <= d /\ Qabs (pz - cz) <= d.

(** A wall with a 4 x 1 or 1 x 4 footprint inside the square of
    half-width 22 around the centre. *)
Definition innerShape (w : Wall) : Prop :=
  ((maxX w - minX w == 4 /\ maxZ w - minZ w == 1) \/
   (maxX w - minX w == 1 /\ maxZ w - minZ w == 4)) /\
  -22 <= minX w /\ maxX w <= 22 /\ -22 <= minZ w /\ maxZ w <= 22.

(** What a frame of free flight conserves, scaled by [2 * 0.015]. *)
Definition jumpEnergy (p : PlayerState) : Q :=
  0.03 * y p + vy p * (vy p - 0.015).

(** No wall under the player, whose radius and speed are the initial
    ones, and the walls are those of a scene or none. *)
Record placed (g : Game) : Prop := {
  placed_radius : radius (playerRef g) = 0.4;
  placed_speed : speed (playerRef g) = 0.12;
  placed_walls : wallsRef g = [] \/ isScene (wallsRef g);
  placed_free :
    checkCollision (wallsRef g) 0.4 (x (playerRef g)) (z (playerRef g))
    = false;
  placed_energy : jumpEnergy (playerRef g) <= 0.02055;
  placed_won : gameState g = WON -> level g = 1%nat
}.

(** A tape that puts the door at (0, 15) and every wall candidate in
    the corner (-20, -20), upright. *)
Definition cornerTape : nat -> Q := fun _ => 0.

(** A phone screen, a finger on the left half and one on the right. *)
Definition phone : Window := mkWindow 800 400.
Definition leftFinger : Touch := mkTouch 0 100 100 "".
Definition rightFinger : Touch := mkTouch 1 600 100 "".

(** What the pointer handlers keep true of the controls: the joystick
    is shown exactly while a joystick touch is held, the axes are 0
    when none is, and the pitch is within 1.5 of level. *)
Definition tidy (c : Controls) : Prop :=
  joyShown c = negb (isNull (touchIdLeft c)) /\
  (touchIdLeft c = None ->
   fwd (ctlInput c) = 0 /\ side (ctlInput c) = 0) /\
  -1.5 <= rotX (ctlInput c) /\ rotX (ctlInput c) <= 1.5.

(** A rational stand-in for the joystick's geometry: the rounded-down
    square root, and the first-order [dy / dx] for [atan2] (exact on
    the positive x axis). *)
Definition sampleGeometry : Geometry := {|
  Math_sqrt := Qsqrt_down;
  Math_atan2 := fun dy dx => dy / dx
|}.

(** The joystick held by [leftFinger] at its starting point. *)
Definition joystickHeld : Controls :=
  handleTouchStart phone [leftFinger] initialControls.

(** The walk on level 1 after [q] frames: as [walking], without the
    flashlight, the countdown restarted at the door of level 0. *)
Record strolling (q : Q) (g : Game) : Prop := {
  s_state : gameState g = PLAYING;
  s_live : isGameEndedRef g = false;
  s_level : level g = 1%nat;
  s_start : startTimeRef g == 1000;
  s_x : x (playerRef g) == 0;
  s_z : z (playerRef g) == 0.12 * q;
  s_y : y (playerRef g) = 0;
  s_vy : vy (playerRef g) = 0;
  s_speed : speed (playerRef g) = 0.12;
  s_radius : radius (playerRef g) = 0.4;
  s_input : inputRef g = mkInput (-1) 0 0 0;
  s_walls : wallsRef g = outerWalls;
  s_doorX : doorX g == 0;
  s_doorZ : doorZ g == 15
}.

(** The play-through continued: the frame at the door of level 0 opens
    level 1, 113 more slow frames with "s" held lead to its door, and
    the next frame wins.  Never evaluated either. *)
Definition secondLevel : Game :=
  step (N := sampleNumerics) atTheDoor (Tick slowFrame centreTape).

Definition strolledFor (k : nat) : Game :=
  run (N := sampleNumerics) secondLevel
    (repeat (Tick slowFrame centreTape) k).

Definition escaped : Game :=
  step (N := sampleNumerics) (strolledFor 113) (Tick slowFrame centreTape).

(** * Properties *)

(** ** The boolean tests *)

Lemma Qltb_true (a b : Q) : Qltb a b = true <-> a < b.
Proof.
  unfold Qltb. rewrite negb_true_iff, <- not_true_iff_false, Qle_bool_iff.
  split; [apply Qnot_le_lt | apply Qlt_not_le].
Qed.

Lemma Qltb_false (a b : Q) : Qltb a b = false <-> b <= a.
Proof.
  unfold Qltb. rewrite negb_false_iff. apply Qle_bool_iff.
Qed.

Lemma Qleb_true (a b : Q) : Qleb a b = true <-> a <= b.
Proof. apply Qle_bool_iff. Qed.

Lemma Qleb_false (a b : Q) : Qleb a b = false <-> b < a.
Proof.
  unfold Qleb. rewrite <- not_true_iff_false, Qle_bool_iff.
  split; [apply Qnot_le_lt | apply Qlt_not_le].
Qed.

(** Case analysis on a test, leaving the order fact in the context. *)
Ltac test_cases a b :=
  let H := fresh "Hcmp" in
  match goal with
  | |- context [Qltb a b] =>
      destruct (Qltb a b) eqn:H;
      [ apply Qltb_true in H | apply Qltb_false in H ]
  | |- context [Qleb a b] =>
      destruct (Qleb a b) eqn:H;
      [ apply Qleb_true in H | apply Qleb_false in H ]
  end.

(** ** Collision *)

Lemma hitsWall_strict (r px pz : Q) (w : Wall) :
  hitsWall r px pz w = true <-> overlapsStrict r px pz w.
Proof.
  unfold hitsWall, overlapsStrict.
  rewrite !andb_true_iff, !Qltb_true. tauto.
Qed.

Lemma checkCollision_Exists (ws : list Wall) (r px pz : Q) :
  checkCollision ws r px pz = true <-> Exists (overlapsStrict r px pz) ws.
Proof.
  induction ws as [| w ws IH]; simpl.
  - split; [discriminate | intros H; inversion H].
  - rewrite Exists_cons, <- IH, <- hitsWall_strict.
    destruct (hitsWall r px pz w); intuition congruence.
Qed.

Lemma checkCollision_app (ws1 ws2 : list Wall) (r px pz : Q) :
  checkCollision (ws1 ++ ws2) r px pz =
  checkCollision ws1 r px pz || checkCollision ws2 r px pz.
Proof.
  induction ws1 as [| w ws1 IH]; simpl; [reflexivity |].
  destruct (hitsWall r px pz w); [reflexivity | exact IH].
Qed.

(** Nothing inside the 48 x 48 square around the centre touches the
    boundary walls. *)
Lemma outerWalls_far (px pz : Q) :
  -24 <= px -> px <= 24 -> -24 <= pz -> pz <= 24 ->
  checkCollision outerWalls 0.4 px pz = false.
Proof.
  intros H1 H2 H3 H4.
  apply not_true_iff_false. rewrite checkCollision_Exists.
  unfold outerWalls, addWall, Qdiv. change (/ 2) with (1 # 2).
  intros H.
  repeat match goal with
         | H : Exists _ (_ :: _) |- _ =>
             apply Exists_cons in H; destruct H as [H | H]
         | H : Exists _ [] |- _ => inversion H
         | H : overlapsStrict _ _ _ _ |- _ =>
             unfold overlapsStrict in H; cbn [minX maxX minZ maxZ] in H;
             lra
         end.
Qed.

(** C1 (as amended): [checkCollision] answers true exactly when some
    wall of the wall set satisfies the four strict inequalities
    [minX < x + r], [x - r < maxX], [minZ < z + r], [z - r < maxZ], that
    is when the centre lies strictly inside the wall's bounds expanded
    by the radius; with no such wall it answers false.  A position that
    only touches the expanded bounds does not collide. *)
Theorem checkCollision_strict_overlap (ws : list Wall) (r px pz : Q) :
  (checkCollision ws r px pz = true <->
     Exists (overlapsStrict r px pz) ws) /\
  (checkCollision ws r px pz = false <->
     ~ Exists (overlapsStrict r px pz) ws).
Proof.
  split; [apply checkCollision_Exists |].
  rewrite <- checkCollision_Exists.
  destruct (checkCollision ws r px pz); intuition congruence.
Qed.

(** C1 (as stated) fails: with touching counted as overlap, the unit
    wall overlaps the circle of radius 0.4 at (-0.4, 0.5), whose right
    edge lies exactly on [minX], but the code reports no collision. *)
Lemma checkCollision_touching_is_free :
  Exists (overlapsInclusive 0.4 (-0.4) 0.5) [unitWall] /\
  checkCollision [unitWall] 0.4 (-0.4) 0.5 = false /\
  ~ (checkCollision [unitWall] 0.4 (-0.4) 0.5 = true <->
       Exists (overlapsInclusive 0.4 (-0.4) 0.5) [unitWall]).
Proof.
  assert (H : Exists (overlapsInclusive 0.4 (-0.4) 0.5) [unitWall]).
  { constructor. unfold overlapsInclusive, unitWall; simpl. lra. }
  split; [exact H |].
  split; [reflexivity |].
  intros [_ Hback]. specialize (Hback H). discriminate Hback.
Qed.

(** ** Jump *)

(** C4: [jump] sets [vy] to the impulse 0.15, which is positive, exactly
    when the player is grounded ([y <= 0.01]) and then changes nothing
    else; called while airborne ([y > 0.01]) it returns the player
    unchanged. *)
Theorem jump_only_when_grounded (p : PlayerState) :
  0 < 0.15 /\
  (y p <= 0.01 -> jump p = set_vy 0.15 p /\ vy (jump p) = 0.15) /\
  (0.01 < y p -> jump p = p) /\
  (jump p = set_vy 0.15 p \/ jump p = p).
Proof.
  unfold jump. split; [lra |].
  test_cases (y p) 0.01.
  - split; [intros _; split; reflexivity |].
    split; [intros Hair; lra | left; reflexivity].
  - split; [intros Hground; lra |].
    split; [reflexivity | right; reflexivity].
Qed.

(** ** Gravity and floor *)

Lemma gravity_above_floor (p : PlayerState) : 0 <= y (gravity p).
Proof.
  unfold gravity; cbn.
  test_cases (y p + (vy p - 0.015)) 0; cbn; lra.
Qed.

Lemma gravity_clamp (p : PlayerState) :
  y p + (vy p - 0.015) < 0 -> y (gravity p) = 0 /\ vy (gravity p) = 0.
Proof.
  intros H. unfold gravity; cbn.
  test_cases (y p + (vy p - 0.015)) 0; cbn; [auto | lra].
Qed.

Lemma gravity_free_fall (p : PlayerState) :
  0 <= y p + (vy p - 0.015) ->
  y (gravity p) = y p + (vy p - 0.015) /\ vy (gravity p) = vy p - 0.015.
Proof.
  intros H. unfold gravity; cbn.
  test_cases (y p + (vy p - 0.015)) 0; cbn; [lra | auto].
Qed.

Lemma gravity_ground (p : PlayerState) :
  x (gravity p) = x p /\ z (gravity p) = z p /\
  speed (gravity p) = speed p /\ radius (gravity p) = radius p.
Proof.
  unfold gravity; cbn.
  destruct (Qltb (y p + (vy p - 0.015)) 0); cbn; auto.
Qed.

(** ** Movement *)

Lemma resolveAxes_y (ws : list Wall) (dx dz : Q) (p : PlayerState) :
  y (resolveAxes ws dx dz p) = y p /\ vy (resolveAxes ws dx dz p) = vy p /\
  radius (resolveAxes ws dx dz p) = radius p /\
  speed (resolveAxes ws dx dz p) = speed p.
Proof.
  unfold resolveAxes.
  destruct (checkCollision ws (radius p) (x p - dx) (z p)); cbn;
    match goal with
    | |- context [checkCollision ?a ?b ?c ?d] =>
        destruct (checkCollision a b c d); cbn; auto
    end.
Qed.

Lemma resolveAxes_x (ws : list Wall) (dx dz : Q) (p : PlayerState) :
  x (resolveAxes ws dx dz p) =
  if checkCollision ws (radius p) (x p - dx) (z p) then x p else x p - dx.
Proof.
  unfold resolveAxes.
  destruct (checkCollision ws (radius p) (x p - dx) (z p)); cbn;
    match goal with
    | |- context [checkCollision ?a ?b ?c ?d] =>
        destruct (checkCollision a b c d); cbn; auto
    end.
Qed.

Lemma resolveAxes_z (ws : list Wall) (dx dz : Q) (p : PlayerState) :
  z (resolveAxes ws dx dz p) =
  if checkCollision ws (radius p) (x (resolveAxes ws dx dz p)) (z p - dz)
  then z p else z p - dz.
Proof.
  rewrite resolveAxes_x. unfold resolveAxes.
  destruct (checkCollision ws (radius p) (x p - dx) (z p)); cbn;
    match goal with
    | |- context [if negb (checkCollision ?a ?b ?c ?d) then _ else _] =>
        destruct (checkCollision a b c d); cbn; auto
    end.
Qed.

Section Properties.
Context {N : Numerics}.

Lemma movement_resolve (input : InputState) (ws : list Wall)
      (p : PlayerState) :
  movement input ws p =
  resolveAxes ws (fst (moveDelta input p)) (snd (moveDelta input p)) p.
Proof. reflexivity. Qed.

(** C3: with [(dx, dz)] the movement of the tick, the new [x] is
    [x - dx] exactly when [(x - dx, z)] with the unchanged [z] does
    not collide, and the new [z] is [z - dz] exactly when
    [(x', z - dz)] with the current [x'] (the [x] the first test left)
    does not collide; nothing else of the player changes.  Hence a
    move blocked on one axis only still advances on the other. *)
Theorem movement_per_axis (input : InputState) (ws : list Wall)
        (p : PlayerState) :
  let dx := fst (moveDelta input p) in
  let dz := snd (moveDelta input p) in
  let p' := movement input ws p in
  x p' = (if checkCollision ws (radius p) (x p - dx) (z p)
          then x p else x p - dx) /\
  z p' = (if checkCollision ws (radius p) (x p') (z p - dz)
          then z p else z p - dz) /\
  y p' = y p /\ vy p' = vy p /\
  (checkCollision ws (radius p) (x p - dx) (z p) = true ->
   checkCollision ws (radius p) (x p) (z p - dz) = false ->
   x p' = x p /\ z p' = z p - dz) /\
  (checkCollision ws (radius p) (x p - dx) (z p) = false ->
   checkCollision ws (radius p) (x p - dx) (z p - dz) = true ->
   x p' = x p - dx /\ z p' = z p).
Proof.
  intros dx dz p'. subst p'. rewrite movement_resolve. fold dx dz.
  pose proof (resolveAxes_x ws dx dz p) as Hx.
  pose proof (resolveAxes_z ws dx dz p) as Hz.
  pose proof (resolveAxes_y ws dx dz p) as (Hy & Hvy & _).
  split; [exact Hx |]. split; [exact Hz |].
  split; [exact Hy |]. split; [exact Hvy |]. split.
  - intros Hbx Hfz. rewrite Hz, Hx, Hbx, Hfz. split; reflexivity.
  - intros Hfx Hbz. rewrite Hz, Hx, Hfx, Hbz. split; reflexivity.
Qed.

(** ** Flashlight and sanity *)

Lemma flashlightLogic_frame (fr : Frame) (g : Game) :
  let g' := flashlightLogic fr g in
  gameState g' = gameState g /\ level g' = level g /\
  isGameEndedRef g' = isGameEndedRef g /\
  startTimeRef g' = startTimeRef g /\ playerRef g' = playerRef g /\
  inputRef g' = inputRef g /\ wallsRef g' = wallsRef g /\
  doorX g' = doorX g /\ doorZ g' = doorZ g /\
  isFlashlightOnRef g' = isFlashlightOnRef g.
Proof.
  unfold flashlightLogic.
  destruct (isFlashlightOnRef g) eqn:Hon; cbn.
  - destruct (Qltb 15 _); [destruct (Qltb 0.8 _) |]; cbn;
      repeat split; auto.
  - repeat split; auto.
Qed.

Lemma flashlightLogic_gain (fr : Frame) (g : Game) :
  sanityAudioGainRef (flashlightLogic fr g) =
  if isFlashlightOnRef g then
    if Qltb 15 (flashlightTimerRef g + clock_getDelta fr)
    then option_map (fun v => Qmin 0.2 (v + 0.001)) (sanityAudioGainRef g)
    else option_map (fun _ => 0) (sanityAudioGainRef g)
  else option_map (fun v => Qmax 0 (v - 0.01)) (sanityAudioGainRef g).
Proof.
  unfold flashlightLogic.
  destruct (isFlashlightOnRef g); cbn; [| reflexivity].
  destruct (Qltb 15 _); [destruct (Qltb 0.8 _) |]; reflexivity.
Qed.

Lemma flashlightLogic_timer (fr : Frame) (g : Game) :
  flashlightTimerRef (flashlightLogic fr g) =
  if isFlashlightOnRef g
  then flashlightTimerRef g + clock_getDelta fr
  else Qmax 0 (flashlightTimerRef g - clock_getDelta fr * 2).
Proof.
  unfold flashlightLogic.
  destruct (isFlashlightOnRef g); cbn; [| reflexivity].
  destruct (Qltb 15 _); [destruct (Qltb 0.8 _) |]; reflexivity.
Qed.

Lemma remaining_flashlightLogic (fr : Frame) (g : Game) :
  remaining fr (flashlightLogic fr g) = remaining fr g.
Proof.
  unfold remaining.
  destruct (flashlightLogic_frame fr g) as (_ & _ & _ & -> & _).
  reflexivity.
Qed.

Lemma nearDoor_flashlightLogic (fr : Frame) (g : Game) :
  nearDoor (flashlightLogic fr g) = nearDoor g.
Proof.
  unfold nearDoor.
  destruct (flashlightLogic_frame fr g)
    as (_ & _ & _ & _ & -> & _ & _ & -> & -> & _).
  reflexivity.
Qed.

Lemma remaining_expired (fr : Frame) (g : Game) :
  remaining fr g <= 0 <-> 300 <= (Date_now fr - startTimeRef g) / 1000.
Proof.
  unfold remaining. rewrite Q.max_lub_iff. split; intros; [| split]; lra.
Qed.

(** ** The four ways through a frame *)

Lemma animate_ended (fr : Frame) (g : Game) :
  isGameEndedRef g = true -> animate fr g = g.
Proof. intros H. unfold animate. rewrite H. reflexivity. Qed.

Lemma animate_lost (fr : Frame) (g : Game) :
  isGameEndedRef g = false ->
  300 <= (Date_now fr - startTimeRef g) / 1000 ->
  animate fr g =
  set_gameState LOST (set_isGameEnded true (flashlightLogic fr g)).
Proof.
  intros Hlive Hexp. unfold animate. rewrite Hlive.
  apply remaining_expired in Hexp.
  rewrite remaining_flashlightLogic.
  apply Qleb_true in Hexp. rewrite Hexp. reflexivity.
Qed.

Lemma animate_door (fr : Frame) (g : Game) :
  isGameEndedRef g = false ->
  (Date_now fr - startTimeRef g) / 1000 < 300 ->
  nearDoor g = true ->
  animate fr g = doorLogic fr (flashlightLogic fr g).
Proof.
  intros Hlive Htime Hdoor. unfold animate. rewrite Hlive.
  rewrite remaining_flashlightLogic, nearDoor_flashlightLogic, Hdoor.
  test_cases (remaining fr g) 0; [| reflexivity].
  apply remaining_expired in Hcmp. lra.
Qed.

Lemma animate_move (fr : Frame) (g : Game) :
  isGameEndedRef g = false ->
  (Date_now fr - startTimeRef g) / 1000 < 300 ->
  nearDoor g = false ->
  animate fr g =
  set_player (movement (inputRef g) (wallsRef g) (gravity (playerRef g)))
    (flashlightLogic fr g).
Proof.
  intros Hlive Htime Hdoor. unfold animate. rewrite Hlive.
  rewrite remaining_flashlightLogic, nearDoor_flashlightLogic, Hdoor.
  destruct (flashlightLogic_frame fr g)
    as (_ & _ & _ & _ & -> & -> & -> & _).
  test_cases (remaining fr g) 0; [| reflexivity].
  apply remaining_expired in Hcmp. lra.
Qed.

(** Every frame goes one of the four ways. *)
Lemma animate_cases (fr : Frame) (g : Game) :
  animate fr g = g \/
  animate fr g =
    set_gameState LOST (set_isGameEnded true (flashlightLogic fr g)) \/
  animate fr g = doorLogic fr (flashlightLogic fr g) \/
  animate fr g =
    set_player (movement (inputRef g) (wallsRef g) (gravity (playerRef g)))
      (flashlightLogic fr g).
Proof.
  destruct (isGameEndedRef g) eqn:Hlive;
    [left; apply animate_ended; assumption |].
  destruct (Qlt_le_dec ((Date_now fr - startTimeRef g) / 1000) 300)
    as [Htime | Htime].
  - destruct (nearDoor g) eqn:Hdoor.
    + right; right; left. apply animate_door; assumption.
    + right; right; right. apply animate_move; assumption.
  - right; left. apply animate_lost; assumption.
Qed.

(** A live frame leaves the gain as its flashlight logic set it. *)
Lemma animate_live_gain (fr : Frame) (g : Game) :
  isGameEndedRef g = false ->
  sanityAudioGainRef (animate fr g) =
  sanityAudioGainRef (flashlightLogic fr g).
Proof.
  intros Hlive. unfold animate. rewrite Hlive.
  destruct (Qleb _ 0); [reflexivity |].
  destruct (nearDoor _); [| reflexivity].
  unfold doorLogic. destruct (Nat.eqb _ 0); reflexivity.
Qed.

Lemma animate_gain_off (fr : Frame) (g : Game) (v : Q) :
  isFlashlightOnRef g = false ->
  sanityAudioGainRef g = Some v ->
  exists v', sanityAudioGainRef (animate fr g) = Some v' /\ v - 0.01 <= v'.
Proof.
  intros Hoff Hv. destruct (isGameEndedRef g) eqn:Hlive.
  - rewrite animate_ended by assumption. exists v. split; [assumption | lra].
  - rewrite animate_live_gain, flashlightLogic_gain, Hoff, Hv by assumption.
    exists (Qmax 0 (v - 0.01)). split; [reflexivity | apply Q.le_max_r].
Qed.

(** ** Consistency is kept by everything that can happen *)

Lemma consistent_ext (g g' : Game) :
  gameState g' = gameState g ->
  isGameEndedRef g' = isGameEndedRef g ->
  sanityAudioGainRef g' = sanityAudioGainRef g ->
  y (playerRef g') = y (playerRef g) ->
  level g' = level g ->
  consistent g -> consistent g'.
Proof.
  intros Hs He Hg Hy Hl [C1 C2 C3 C4 C5].
  constructor; rewrite ?Hs, ?He, ?Hg, ?Hy, ?Hl; assumption.
Qed.

Lemma consistent_initial : consistent initialGame.
Proof.
  constructor.
  - discriminate.
  - intros [H | H]; discriminate.
  - discriminate.
  - apply Qle_refl.
  - left; reflexivity.
Qed.

Lemma consistent_flashlightLogic (fr : Frame) (g : Game) :
  consistent g -> consistent (flashlightLogic fr g).
Proof.
  intros [C1 C2 C3 C4 C5].
  destruct (flashlightLogic_frame fr g)
    as (Hs & Hl & He & _ & Hp & _).
  constructor; rewrite ?Hs, ?He, ?Hp, ?Hl; try assumption.
  intros v. rewrite flashlightLogic_gain.
  destruct (sanityAudioGainRef g) as [v0 |];
    [destruct (C3 v0 eq_refl) as [Hlo Hhi] |];
    destruct (isFlashlightOnRef g);
    try destruct (Qltb 15 _); cbn; intros Hv; inversion Hv; subst.
  - split; [apply Q.min_glb; lra | apply Q.le_min_l].
  - split; lra.
  - split; [apply Q.le_max_l | apply Q.max_lub; lra].
Qed.

Lemma consistent_over (s : GameState) (g : Game) :
  s = WON \/ s = LOST -> consistent g ->
  consistent (set_gameState s (set_isGameEnded true g)).
Proof.
  intros Hs [C1 C2 C3 C4 C5].
  constructor; cbn; try assumption; auto.
  intros ->. destruct Hs; discriminate.
Qed.

Lemma consistent_doorLogic (fr : Frame) (g : Game) :
  consistent g -> consistent (doorLogic fr g).
Proof.
  intros C. unfold doorLogic.
  destruct (Nat.eqb (level g) 0).
  - destruct C as [C1 C2 C3 C4 C5].
    constructor; cbn; try assumption. right; reflexivity.
  - apply consistent_over; [left; reflexivity | assumption].
Qed.

Lemma consistent_set_player (p : PlayerState) (g : Game) :
  0 <= y p -> consistent g -> consistent (set_player p g).
Proof.
  intros Hy [C1 C2 C3 C4 C5]. constructor; cbn; assumption.
Qed.

Lemma movement_y (input : InputState) (ws : list Wall) (p : PlayerState) :
  y (movement input ws p) = y p.
Proof. rewrite movement_resolve. apply resolveAxes_y. Qed.

Lemma consistent_animate (fr : Frame) (g : Game) :
  consistent g -> consistent (animate fr g).
Proof.
  intros C.
  pose proof (consistent_flashlightLogic fr g C) as C'.
  destruct (animate_cases fr g) as [-> | [-> | [-> | ->]]].
  - assumption.
  - apply consistent_over; [right; reflexivity | assumption].
  - apply consistent_doorLogic; assumption.
  - apply consistent_set_player; [| assumption].
    rewrite movement_y. apply gravity_above_floor.
Qed.

Lemma sceneEffect_idle (rnd : nat -> Q) (g : Game) :
  gameState g <> PLAYING -> sceneEffect rnd g = g.
Proof.
  intros Hs. unfold sceneEffect.
  destruct (gameState g); congruence.
Qed.

(** What the effect leaves alone, and the shape of the walls it builds. *)
Lemma sceneEffect_fields (rnd : nat -> Q) (g : Game) :
  gameState g = PLAYING ->
  let g' := sceneEffect rnd g in
  gameState g' = PLAYING /\ level g' = level g /\
  isGameEndedRef g' = false /\
  sanityAudioGainRef g' = sanityAudioGainRef g /\
  playerRef g' = playerRef g /\
  flashlightTimerRef g' = flashlightTimerRef g /\
  startTimeRef g' = startTimeRef g /\
  isFlashlightOnRef g' = isFlashlightOnRef g /\
  inputRef g' = inputRef g /\
  wallsRef g' =
    outerWalls ++ innerWalls rnd 2 (doorX g') (doorZ g')
                    (wallCount (level g)).
Proof.
  intros Hs. unfold sceneEffect. rewrite Hs.
  repeat split; auto.
Qed.

Lemma consistent_sceneEffect (rnd : nat -> Q) (g : Game) :
  consistent g -> consistent (sceneEffect rnd g).
Proof.
  intros C.
  destruct (gameState g) eqn:Hs;
    try (unfold sceneEffect; rewrite Hs; exact C).
  destruct (sceneEffect_fields rnd g Hs) as (Es & El & Ee & Eg & Ep & _).
  set (g' := sceneEffect rnd g) in *. clearbody g'.
  destruct C as [C1 C2 C3 C4 C5].
  constructor; rewrite ?Es, ?El, ?Ee, ?Eg, ?Ep; auto.
  intros [H | H]; discriminate.
Qed.

Lemma consistent_rerender (rnd : nat -> Q) (g g' : Game) :
  consistent g' -> consistent (rerender rnd g g').
Proof.
  intros C. unfold rerender.
  destruct (sameDeps g g'); [assumption |].
  apply consistent_sceneEffect; assumption.
Qed.

Lemma jump_y (p : PlayerState) : y (jump p) = y p.
Proof. unfold jump. destruct (Qleb (y p) 0.01); reflexivity. Qed.

Lemma handleStart_fields (now : Q) (g : Game) :
  let g' := handleStart now g in
  gameState g' = PLAYING /\ level g' = 0%nat /\
  startTimeRef g' = now /\ flashlightTimerRef g' = 0 /\
  isFlashlightOnRef g' = true /\ playerRef g' = initialPlayer /\
  inputRef g' = initialInput /\
  isGameEndedRef g' = isGameEndedRef g /\
  sanityAudioGainRef g' =
    match sanityAudioGainRef g with Some v => Some v | None => Some 0 end.
Proof.
  unfold handleStart, initAudio; cbn.
  destruct (sanityAudioGainRef g) eqn:Hg; cbn; rewrite ?Hg;
    repeat split; reflexivity.
Qed.

Lemma step_start (now : Q) (rnd : nat -> Q) (g : Game) :
  gameState g = MENU ->
  step g (Start now rnd) = sceneEffect rnd (handleStart now g).
Proof.
  intros Hs. unfold step, rerender, sameDeps. rewrite Hs.
  destruct (handleStart_fields now g) as (-> & _).
  rewrite andb_false_r. reflexivity.
Qed.

Lemma consistent_start (now : Q) (rnd : nat -> Q) (g : Game) :
  consistent g -> consistent (sceneEffect rnd (handleStart now g)).
Proof.
  intros [C1 C2 C3 C4 C5].
  destruct (handleStart_fields now g)
    as (Hs & Hl & _ & _ & _ & Hp & _ & _ & Hg).
  destruct (sceneEffect_fields rnd (handleStart now g) Hs)
    as (Es & El & Ee & Eg & Ep & _).
  set (g' := sceneEffect rnd (handleStart now g)) in *. clearbody g'.
  constructor; rewrite ?Es, ?El, ?Ee, ?Eg, ?Ep, ?Hl, ?Hp, ?Hg.
  - reflexivity.
  - intros [H | H]; discriminate.
  - destruct (sanityAudioGainRef g) as [v0 |]; intros v Hv;
      inversion Hv; subst; [apply C3; reflexivity | split; lra].
  - apply Qle_refl.
  - left; reflexivity.
Qed.

Lemma consistent_menu (g : Game) :
  consistent g -> consistent (set_gameState MENU g).
Proof.
  intros [C1 C2 C3 C4 C5]. constructor; cbn; try assumption.
  - discriminate.
  - intros [H | H]; discriminate.
Qed.

Lemma consistent_handleKeyDown (key code : string) (g : Game) :
  consistent g -> consistent (handleKeyDown key code g).
Proof.
  intros C. unfold handleKeyDown, toggleFlashlight.
  eapply consistent_ext; [.. | exact C];
    destruct (String.eqb code "Space");
    destruct (String.eqb key "e" || String.eqb key "E");
    cbn; auto using jump_y.
Qed.

Lemma consistent_step (g : Game) (e : Event) :
  consistent g -> consistent (step g e).
Proof.
  intros C.
  destruct e as [now rnd | | fr rnd | key code | key | | | i];
    destruct (gameState g) eqn:Hs;
    try (unfold step; rewrite Hs; assumption);
    try (rewrite step_start by assumption; apply consistent_start;
         assumption);
    unfold step; rewrite Hs;
    try (apply consistent_menu; assumption);
    try (apply consistent_rerender, consistent_animate; assumption).
  - apply consistent_handleKeyDown; assumption.
  - eapply consistent_ext; [.. | exact C]; reflexivity.
  - eapply consistent_ext; [.. | exact C]; cbn; auto using jump_y.
  - eapply consistent_ext; [.. | exact C]; reflexivity.
  - eapply consistent_ext; [.. | exact C]; reflexivity.
Qed.

Theorem reachable_consistent (g : Game) : reachable g -> consistent g.
Proof.
  induction 1 as [| g e _ IH];
    [apply consistent_initial | apply consistent_step; exact IH].
Qed.

Lemma reachable_playing_live (g : Game) :
  reachable g -> gameState g = PLAYING -> isGameEndedRef g = false.
Proof. intros Hr. apply playing_live, reachable_consistent, Hr. Qed.

Lemma reachable_run (g : Game) (es : list Event) :
  reachable g -> reachable (run g es).
Proof.
  unfold run. revert g.
  induction es as [| e es IH]; intros g Hr; [exact Hr |].
  cbn [fold_left]. apply IH, reachable_step, Hr.
Qed.

(** Building a scene touches neither the session state, the level, the
    player nor the sanity state. *)
Lemma sceneEffect_keeps (rnd : nat -> Q) (g : Game) :
  let g' := sceneEffect rnd g in
  gameState g' = gameState g /\ level g' = level g /\
  sanityAudioGainRef g' = sanityAudioGainRef g /\
  flashlightTimerRef g' = flashlightTimerRef g /\
  isFlashlightOnRef g' = isFlashlightOnRef g /\
  playerRef g' = playerRef g /\ startTimeRef g' = startTimeRef g.
Proof.
  destruct (gameState g) eqn:Hs;
    try (rewrite sceneEffect_idle by congruence; cbv zeta; auto 10).
  destruct (sceneEffect_fields rnd g Hs)
    as (E1 & E2 & _ & E3 & E4 & E5 & E6 & E7 & _).
  cbv zeta. rewrite E1, E2, E3, E4, E5, E6, E7. auto 10.
Qed.

Lemma rerender_keeps (rnd : nat -> Q) (g g' : Game) :
  let g'' := rerender rnd g g' in
  gameState g'' = gameState g' /\ level g'' = level g' /\
  sanityAudioGainRef g'' = sanityAudioGainRef g' /\
  flashlightTimerRef g'' = flashlightTimerRef g' /\
  isFlashlightOnRef g'' = isFlashlightOnRef g' /\
  playerRef g'' = playerRef g' /\ startTimeRef g'' = startTimeRef g'.
Proof.
  unfold rerender. destruct (sameDeps g g');
    [cbv zeta; auto 10 | apply sceneEffect_keeps].
Qed.

(** C6: the floor bounds the vertical position.  The physics of a
    frame (gravity, then [y += vy], then the floor test) leaves
    [y >= 0], and when the floor test fires ([y + vy - 0.015 < 0])
    both [y] and [vy] are 0 afterwards, also at the end of the frame
    that ran the physics; consequently [y >= 0] after every frame of
    every reachable game. *)
Theorem floor_bounds_y :
  (forall p : PlayerState,
      0 <= y (gravity p) /\
      (y p + (vy p - 0.015) < 0 ->
       y (gravity p) = 0 /\ vy (gravity p) = 0)) /\
  (forall (g : Game) (fr : Frame),
      isGameEndedRef g = false ->
      (Date_now fr - startTimeRef g) / 1000 < 300 ->
      nearDoor g = false ->
      y (playerRef g) + (vy (playerRef g) - 0.015) < 0 ->
      y (playerRef (animate fr g)) = 0 /\
      vy (playerRef (animate fr g)) = 0) /\
  (forall (g : Game) (fr : Frame),
      reachable g -> 0 <= y (playerRef (animate fr g))).
Proof.
  split; [| split].
  - intros p. split; [apply gravity_above_floor | apply gravity_clamp].
  - intros g fr Hlive Htime Hdoor Hfall.
    rewrite animate_move by assumption. cbn [playerRef set_player].
    rewrite movement_resolve.
    destruct (resolveAxes_y (wallsRef g)
                (fst (moveDelta (inputRef g) (gravity (playerRef g))))
                (snd (moveDelta (inputRef g) (gravity (playerRef g))))
                (gravity (playerRef g))) as (-> & -> & _).
    apply gravity_clamp. exact Hfall.
  - intros g fr Hr.
    apply reachable_consistent, (consistent_animate fr) in Hr.
    exact (above_floor _ Hr).
Qed.

(** C5: in a reachable game whose gain node holds [v], a frame with
    the flashlight on and the accumulated timer above 15 leaves a gain
    [v'] with [v <= v' <= 0.2], and a frame with the flashlight off
    leaves a gain [v'] with [0 <= v' <= v]. *)
Theorem sanity_gain_monotone (g : Game) (fr : Frame) (v : Q) :
  reachable g ->
  sanityAudioGainRef g = Some v ->
  (isFlashlightOnRef g = true ->
   15 < flashlightTimerRef g + clock_getDelta fr ->
   exists v', sanityAudioGainRef (animate fr g) = Some v' /\
              v <= v' /\ v' <= 0.2) /\
  (isFlashlightOnRef g = false ->
   exists v', sanityAudioGainRef (animate fr g) = Some v' /\
              v' <= v /\ 0 <= v').
Proof.
  intros Hr Hv.
  apply reachable_consistent in Hr.
  destruct (gain_range g Hr v Hv) as [Hlo Hhi].
  assert (Hgain : sanityAudioGainRef (animate fr g) = Some v \/
                  sanityAudioGainRef (animate fr g) =
                  sanityAudioGainRef (flashlightLogic fr g)).
  { destruct (isGameEndedRef g) eqn:Hlive.
    - left. rewrite animate_ended by assumption. exact Hv.
    - right. apply animate_live_gain. exact Hlive. }
  rewrite flashlightLogic_gain, Hv in Hgain.
  split; intros Hon; rewrite Hon in Hgain.
  - intros Hhot. apply Qltb_true in Hhot. rewrite Hhot in Hgain.
    destruct Hgain as [-> | ->]; cbn.
    + exists v. split; [reflexivity | split; lra].
    + exists (Qmin 0.2 (v + 0.001)).
      split; [reflexivity |].
      split; [apply Q.min_glb; lra | apply Q.le_min_l].
  - destruct Hgain as [-> | ->]; cbn.
    + exists v. split; [reflexivity | split; lra].
    + exists (Qmax 0 (v - 0.01)).
      split; [reflexivity |].
      split; [apply Q.max_lub; lra | apply Q.le_max_l].
Qed.

(** C10: on a live frame (terminal flag clear) with the flashlight on
    and the accumulated timer at most 15, an existing gain node is set
    to 0 in that frame, whatever it held. *)
Theorem cold_flashlight_silences (g : Game) (fr : Frame) (v : Q) :
  isGameEndedRef g = false ->
  isFlashlightOnRef g = true ->
  flashlightTimerRef g + clock_getDelta fr <= 15 ->
  sanityAudioGainRef g = Some v ->
  sanityAudioGainRef (flashlightLogic fr g) = Some 0 /\
  sanityAudioGainRef (animate fr g) = Some 0.
Proof.
  intros Hlive Hon Hcold Hv.
  assert (H0 : sanityAudioGainRef (flashlightLogic fr g) = Some 0).
  { rewrite flashlightLogic_gain, Hon, Hv.
    apply Qltb_false in Hcold. rewrite Hcold. reflexivity. }
  split; [exact H0 |].
  rewrite animate_live_gain by assumption. exact H0.
Qed.

(** ** Level advance and start *)

Lemma doorLogic_level0 (fr : Frame) (g : Game) :
  level g = 0%nat ->
  let g' := doorLogic fr g in
  gameState g' = gameState g /\ level g' = 1%nat /\
  x (playerRef g') = 0 /\ z (playerRef g') = 0 /\
  startTimeRef g' = Date_now_door fr /\ flashlightTimerRef g' = 0 /\
  sanityAudioGainRef g' = sanityAudioGainRef g /\
  isGameEndedRef g' = isGameEndedRef g.
Proof.
  intros Hl. unfold doorLogic. rewrite Hl. cbn.
  repeat split; reflexivity.
Qed.

Lemma doorLogic_last (fr : Frame) (g : Game) :
  level g <> 0%nat ->
  doorLogic fr g = set_gameState WON (set_isGameEnded true g).
Proof.
  intros Hl. unfold doorLogic.
  apply Nat.eqb_neq in Hl. rewrite Hl. reflexivity.
Qed.

(** C2 (as amended): the level advance (a live frame at level 0, the
    countdown still running, the player near the door) and every
    (re)start leave [flashlightTimer] at 0.  The audio gain is not
    reset by either: the advancing frame leaves it as its own flashlight
    logic set it, and a start keeps an existing gain node as it is (a
    first start creates the node at 0).  After a start it is the first
    frame that silences the node, the flashlight being on with at most
    15 s accumulated. *)
Theorem transition_resets_timer_only :
  (forall (g : Game) (fr : Frame),
      isGameEndedRef g = false ->
      (Date_now fr - startTimeRef g) / 1000 < 300 ->
      nearDoor g = true -> level g = 0%nat ->
      flashlightTimerRef (animate fr g) = 0 /\
      sanityAudioGainRef (animate fr g) =
        sanityAudioGainRef (flashlightLogic fr g)) /\
  (forall (g : Game) (now : Q) (rnd : nat -> Q),
      gameState g = MENU ->
      flashlightTimerRef (step g (Start now rnd)) = 0 /\
      sanityAudioGainRef (step g (Start now rnd)) =
        match sanityAudioGainRef g with
        | Some v => Some v
        | None => Some 0
        end) /\
  (forall (g : Game) (now : Q) (rnd : nat -> Q) (fr : Frame),
      gameState g = MENU ->
      clock_getDelta fr <= 15 ->
      sanityAudioGainRef (animate fr (step g (Start now rnd))) = Some 0).
Proof.
  split; [| split].
  - intros g fr Hlive Htime Hdoor Hl.
    rewrite animate_door by assumption.
    destruct (flashlightLogic_frame fr g) as (_ & Hl' & _).
    rewrite Hl in Hl'.
    destruct (doorLogic_level0 fr (flashlightLogic fr g) Hl')
      as (_ & _ & _ & _ & _ & Ht & Hg & _).
    auto.
  - intros g now rnd Hs. rewrite step_start by assumption.
    destruct (handleStart_fields now g)
      as (Hs' & _ & _ & Ht & _ & _ & _ & _ & Hg).
    destruct (sceneEffect_fields rnd (handleStart now g) Hs')
      as (_ & _ & _ & Eg & _ & Et & _).
    rewrite Et, Eg. auto.
  - intros g now rnd fr Hs Hdt. rewrite step_start by assumption.
    destruct (handleStart_fields now g)
      as (Hs' & _ & _ & Ht & Hon & _ & _ & _ & Hg).
    destruct (sceneEffect_fields rnd (handleStart now g) Hs')
      as (_ & _ & Ee & Eg & _ & Et & _ & Eon & _).
    set (g1 := sceneEffect rnd (handleStart now g)) in *. clearbody g1.
    rewrite animate_live_gain, flashlightLogic_gain by assumption.
    rewrite Eon, Hon, Et, Ht, Eg, Hg.
    assert (Hcold : Qltb 15 (0 + clock_getDelta fr) = false)
      by (apply Qltb_false; lra).
    rewrite Hcold. destruct (sanityAudioGainRef g); reflexivity.
Qed.

(** C7 (as amended): on a frame of a game in [PLAYING] with the
    terminal flag clear (as it is in every reachable [PLAYING] game,
    [reachable_playing_live]), the countdown not yet over
    (elapsed < 300 s) and the player within 1.5 of the door: at level 0
    the session stays [PLAYING], the level becomes 1, the player is put
    at (0, 0) and the countdown restarts at the current time; at any
    other level (level 1) the session becomes [WON] and the terminal
    flag is set.  When the countdown is over the frame goes to [LOST]
    however close the door is. *)
Theorem door_transitions (g : Game) (fr : Frame) :
  gameState g = PLAYING ->
  isGameEndedRef g = false ->
  nearDoor g = true ->
  ((Date_now fr - startTimeRef g) / 1000 < 300 ->
   (level g = 0%nat ->
    gameState (animate fr g) = PLAYING /\
    level (animate fr g) = 1%nat /\
    x (playerRef (animate fr g)) = 0 /\
    z (playerRef (animate fr g)) = 0 /\
    startTimeRef (animate fr g) = Date_now_door fr /\
    isGameEndedRef (animate fr g) = false) /\
   (level g <> 0%nat ->
    gameState (animate fr g) = WON /\
    level (animate fr g) = level g /\
    isGameEndedRef (animate fr g) = true)) /\
  (300 <= (Date_now fr - startTimeRef g) / 1000 ->
   gameState (animate fr g) = LOST /\ level (animate fr g) = level g).
Proof.
  intros Hs Hlive Hdoor.
  destruct (flashlightLogic_frame fr g) as (Hs' & Hl' & He' & _).
  split.
  - intros Htime. rewrite animate_door by assumption. split; intros Hl.
    + rewrite Hl in Hl'.
      destruct (doorLogic_level0 fr (flashlightLogic fr g) Hl')
        as (E1 & E2 & E3 & E4 & E5 & _ & _ & E6).
      rewrite E1, E6, Hs', He'. auto 10.
    + rewrite doorLogic_last by (rewrite Hl'; exact Hl). cbn. auto.
  - intros Htime. rewrite animate_lost by assumption. cbn. auto.
Qed.

(** ** Countdown and freeze *)

Lemma sameDeps_refl (g : Game) : sameDeps g g = true.
Proof.
  unfold sameDeps. rewrite Nat.eqb_refl.
  destruct (gameState g); reflexivity.
Qed.

Lemma step_tick_frozen (g : Game) (fr : Frame) (rnd : nat -> Q) :
  isGameEndedRef g = true -> step g (Tick fr rnd) = g.
Proof.
  intros He. unfold step.
  destruct (gameState g); try reflexivity;
    rewrite animate_ended by assumption;
    unfold rerender; rewrite sameDeps_refl; reflexivity.
Qed.

Lemma run_ticks_frozen (g : Game) (es : list Event) :
  isGameEndedRef g = true -> Forall isTick es -> run g es = g.
Proof.
  intros He Hes. unfold run.
  induction Hes as [| e es He1 _ IH]; [reflexivity |].
  destruct e; try contradiction. cbn [fold_left].
  rewrite step_tick_frozen by assumption. exact IH.
Qed.

(** C8: in a reachable game in [PLAYING], a frame that finds at least
    300 s elapsed ends in [LOST] with the terminal flag set; and in a
    reachable game in [WON] or [LOST] the terminal flag is set, so a
    frame returns the game as it is and no sequence of frames changes
    anything, the player's position included. *)
Theorem timer_expiry_and_freeze (g : Game) :
  reachable g ->
  (gameState g = PLAYING ->
   forall (fr : Frame) (rnd : nat -> Q),
     300 <= (Date_now fr - startTimeRef g) / 1000 ->
     gameState (step g (Tick fr rnd)) = LOST /\
     isGameEndedRef (step g (Tick fr rnd)) = true) /\
  (gameState g = WON \/ gameState g = LOST ->
   isGameEndedRef g = true /\
   (forall fr : Frame, animate fr g = g) /\
   (forall es : list Event,
       Forall isTick es ->
       run g es = g /\
       x (playerRef (run g es)) = x (playerRef g) /\
       z (playerRef (run g es)) = z (playerRef g) /\
       y (playerRef (run g es)) = y (playerRef g))).
Proof.
  intros Hr. apply reachable_consistent in Hr. split.
  - intros Hs fr rnd Hexp.
    pose proof (playing_live g Hr Hs) as Hlive.
    unfold step. rewrite Hs.
    rewrite animate_lost by assumption.
    unfold rerender, sameDeps. cbn [gameState set_gameState].
    rewrite Hs, andb_false_r.
    rewrite sceneEffect_idle by (cbn; discriminate). cbn. auto.
  - intros Hs. pose proof (over_frozen g Hr Hs) as He.
    split; [exact He |].
    split; [intros fr; apply animate_ended; exact He |].
    intros es Hes. rewrite run_ticks_frozen by assumption. auto.
Qed.

(** ** Spawn safety *)

Lemma addWall_clear_origin (rx rz rw rd : Q) :
  (rw = 4 /\ rd = 1) \/ (rw = 1 /\ rd = 4) ->
  4 <= Qabs rx \/ 4 <= Qabs rz ->
  hitsWall 0.4 0 0 (addWall rx rz rw rd) = false.
Proof.
  intros Hshape Hfar.
  apply not_true_iff_false. rewrite hitsWall_strict.
  unfold overlapsStrict, addWall, Qdiv; cbn [minX maxX minZ maxZ].
  change (/ 2) with (1 # 2).
  intros (H1 & H2 & H3 & H4).
  assert (Hx : Qabs rx < 4)
    by (apply Qabs_Qlt_condition;
        destruct Hshape as [[-> ->] | [-> ->]]; split; lra).
  assert (Hz : Qabs rz < 4)
    by (apply Qabs_Qlt_condition;
        destruct Hshape as [[-> ->] | [-> ->]]; split; lra).
  destruct Hfar; lra.
Qed.

Lemma innerWalls_clear_origin (rnd : nat -> Q) (dX dZ : Q) (n k : nat) :
  checkCollision (innerWalls rnd k dX dZ n) 0.4 0 0 = false.
Proof.
  revert k. induction n as [| n IH]; intros k; [reflexivity |].
  cbn [innerWalls].
  destruct (Qltb (Qabs (rnd k * 40 - 20)) 4 &&
            Qltb (Qabs (rnd (S k) * 40 - 20)) 4) eqn:Hcentre;
    [apply IH |].
  destruct (Qltb (Qabs (rnd k * 40 - 20 - dX)) 4 &&
            Qltb (Qabs (rnd (S k) * 40 - 20 - dZ)) 4);
    [apply IH |].
  cbn [checkCollision]. rewrite addWall_clear_origin, IH; auto.
  - destruct (Qltb 0.5 (rnd (S (S k)))); [left | right]; split; reflexivity.
  - apply andb_false_iff in Hcentre.
    destruct Hcentre as [H | H]; apply Qltb_false in H; auto.
Qed.

Lemma innerWalls_length (rnd : nat -> Q) (dX dZ : Q) (n k : nat) :
  (List.length (innerWalls rnd k dX dZ n) <= n)%nat.
Proof.
  revert k. induction n as [| n IH]; intros k; [apply Nat.le_refl |].
  cbn [innerWalls].
  repeat match goal with
         | |- context [if ?c then _ else _] => destruct c
         end;
    cbn [List.length]; specialize (IH (3 + k)%nat); lia.
Qed.

(** C9: whatever [Math.random()] returns while level 0 is built for a
    fresh session, the wall set holds the 4 boundary walls and at most
    25 inner walls and the player, spawned at the origin with radius
    0.4, does not collide: [checkCollision] at (0, 0) is false. *)
Theorem spawn_is_free (g : Game) (now : Q) (rnd : nat -> Q) :
  let g' := sceneEffect rnd (handleStart now g) in
  level g' = 0%nat /\
  (4 <= List.length (wallsRef g') <= 29)%nat /\
  x (playerRef g') = 0 /\ z (playerRef g') = 0 /\
  radius (playerRef g') = 0.4 /\
  checkCollision (wallsRef g') 0.4 0 0 = false /\
  checkCollision (wallsRef g') (radius (playerRef g'))
    (x (playerRef g')) (z (playerRef g')) = false.
Proof.
  destruct (handleStart_fields now g)
    as (Hs & Hl & _ & _ & _ & Hp & _).
  destruct (sceneEffect_fields rnd (handleStart now g) Hs)
    as (_ & El & _ & _ & Ep & _ & _ & _ & _ & Ew).
  cbv zeta.
  set (g' := sceneEffect rnd (handleStart now g)) in *. clearbody g'.
  rewrite Ew, Ep, El, Hp, Hl.
  change (wallCount 0) with 25%nat.
  cbn [x z radius initialPlayer].
  rewrite length_app, checkCollision_app, innerWalls_clear_origin.
  pose proof (innerWalls_length rnd (doorX g') (doorZ g') 25 2) as Hlen.
  change (List.length outerWalls) with 4%nat.
  change (checkCollision outerWalls 0.4 0 0) with false.
  repeat split; try reflexivity; lia.
Qed.

End Properties.

(** * A walk to the door

    The play-through [atTheDoor] followed frame by frame for the
    rational instance of the numerics. *)

Lemma Qsqrt_down_near (a : Q) : Qsqrt_down a < 1.5 <-> a < 2.25.
Proof.
  unfold Qsqrt_down.
  set (m := Qfloor (a * 1000000)).
  assert (Hm : (m < 2250000)%Z <-> a < 2.25).
  { subst m. split; intros H.
    - pose proof (Qlt_floor (a * 1000000)) as Hup.
      assert (Hle : inject_Z (Qfloor (a * 1000000) + 1) <= inject_Z 2250000)
        by (rewrite <- Zle_Qle; lia).
      change (inject_Z 2250000) with 2250000 in Hle. lra.
    - pose proof (Qfloor_le (a * 1000000)) as Hdown.
      assert (Hlt : inject_Z (Qfloor (a * 1000000)) < inject_Z 2250000)
        by (change (inject_Z 2250000) with 2250000; lra).
      rewrite <- Zlt_Qlt in Hlt. exact Hlt. }
  assert (Hs : (Z.sqrt m < 1500)%Z <-> (m < 2250000)%Z).
  { destruct (Z.lt_ge_cases m 0) as [Hneg | Hpos].
    - rewrite Z.sqrt_neg by assumption. lia.
    - rewrite <- (Z.sqrt_lt_square m 1500) by lia. lia. }
  rewrite <- Hm, <- Hs, Zlt_Qlt.
  change (inject_Z 1500) with 1500.
  unfold Qdiv. change (/ 1000) with (1 # 1000).
  split; intros; lra.
Qed.

Lemma sample_moveDelta_back (p : PlayerState) :
  speed p = 0.12 ->
  fst (moveDelta (N := sampleNumerics) (mkInput (-1) 0 0 0) p) == 0 /\
  snd (moveDelta (N := sampleNumerics) (mkInput (-1) 0 0 0) p) == -0.12.
Proof.
  intros Hs. unfold moveDelta. rewrite Hs. cbn. split; reflexivity.
Qed.

(** One more frame of the walk, as long as the door is out of reach. *)
Lemma walking_frame (q : Q) (g : Game) :
  0 <= q -> q <= 112 -> walking q g ->
  walking (q + 1) (step (N := sampleNumerics) g (Tick slowFrame centreTape)).
Proof.
  intros Hq0 Hq1 W. destruct W.
  destruct w_gain0 as (v & Hv & Hvq).
  assert (Htime : (Date_now slowFrame - startTimeRef g) / 1000 < 300).
  { cbn [Date_now slowFrame]. unfold Qdiv. change (/ 1000) with (1 # 1000).
    lra. }
  assert (Hfar : nearDoor (N := sampleNumerics) g = false).
  { unfold nearDoor. cbn [Math_hypot sampleNumerics].
    apply Qltb_false. apply Qnot_lt_le. rewrite Qsqrt_down_near. nra. }
  pose proof (animate_move (N := sampleNumerics) slowFrame g
                w_live0 Htime Hfar) as Ha.
  destruct (flashlightLogic_frame slowFrame g)
    as (Fs & Fl & Fe & Ft & Fp & Fi & Fw & FdX & FdZ & Fon).
  pose proof (flashlightLogic_timer slowFrame g) as Ftimer.
  pose proof (flashlightLogic_gain slowFrame g) as Fgain.
  rewrite w_light0 in Ftimer, Fgain.
  assert (Hhot : Qltb 15 (flashlightTimerRef g + clock_getDelta slowFrame)
                 = true)
    by (apply Qltb_true; cbn [clock_getDelta slowFrame]; lra).
  rewrite Hhot, Hv in Fgain. cbn [option_map] in Fgain.
  cbn [clock_getDelta slowFrame] in Ftimer.
  set (p1 := gravity (playerRef g)) in *.
  destruct (gravity_ground (playerRef g)) as (Gx & Gz & Gs & Gr).
  destruct (gravity_clamp (playerRef g)) as (Gy & Gvy);
    [rewrite w_y0, w_vy0; lra |].
  fold p1 in Gx, Gz, Gs, Gr, Gy, Gvy.
  rewrite w_input0, w_walls0 in Ha.
  rewrite movement_resolve in Ha.
  destruct (sample_moveDelta_back p1) as (Hdx & Hdz);
    [rewrite Gs; exact w_speed0 |].
  set (dx := fst (moveDelta (N := sampleNumerics) (mkInput (-1) 0 0 0) p1))
    in *.
  set (dz := snd (moveDelta (N := sampleNumerics) (mkInput (-1) 0 0 0) p1))
    in *.
  pose proof (resolveAxes_x outerWalls dx dz p1) as Rx.
  pose proof (resolveAxes_z outerWalls dx dz p1) as Rz.
  destruct (resolveAxes_y outerWalls dx dz p1) as (Ry & Rvy & Rr & Rs).
  rewrite Gr, w_radius0, Gx, Gz in Rx.
  rewrite outerWalls_far in Rx by lra.
  rewrite Gr, w_radius0, Rx, Gz in Rz.
  rewrite outerWalls_far in Rz by lra.
  set (p2 := resolveAxes outerWalls dx dz p1) in *.
  assert (Hstep : step (N := sampleNumerics) g (Tick slowFrame centreTape)
                  = set_player p2 (flashlightLogic slowFrame g)).
  { unfold step. rewrite w_state0, Ha.
    unfold rerender, sameDeps. cbn [level gameState set_player].
    rewrite Fs, Fl, w_state0, Nat.eqb_refl. reflexivity. }
  rewrite Hstep.
  constructor; cbn [gameState isGameEndedRef level isFlashlightOnRef
                    startTimeRef playerRef inputRef wallsRef doorX doorZ
                    flashlightTimerRef sanityAudioGainRef set_player];
    rewrite ?Fs, ?Fl, ?Fe, ?Ft, ?Fi, ?Fw, ?FdX, ?FdZ, ?Fon; try assumption.
  - rewrite Rx. lra.
  - rewrite Rz. lra.
  - rewrite Ry. exact Gy.
  - rewrite Rvy. exact Gvy.
  - rewrite Rs, Gs. exact w_speed0.
  - rewrite Rr, Gr. exact w_radius0.
  - rewrite Ftimer. lra.
  - exists (Qmin 0.2 (v + 0.001)). split; [exact Fgain |].
    rewrite Q.min_r by lra. lra.
Qed.

Lemma walking_Qeq (q q' : Q) (g : Game) :
  q == q' -> walking q g -> walking q' g.
Proof.
  intros E W. destruct W. destruct w_gain0 as (v & Hv & Hvq).
  constructor; try assumption; try lra.
  exists v. split; [assumption | lra].
Qed.

Lemma walking_keyHeld : walking 0 keyHeld.
Proof.
  constructor; try (vm_compute; reflexivity).
  exists 0. split; vm_compute; reflexivity.
Qed.

Lemma walkedFor_S (k : nat) :
  walkedFor (S k) =
  step (N := sampleNumerics) (walkedFor k) (Tick slowFrame centreTape).
Proof.
  unfold walkedFor, run.
  rewrite <- Nat.add_1_r, repeat_app, fold_left_app. reflexivity.
Qed.

Lemma walking_walkedFor (k : nat) :
  (k <= 113)%nat -> walking (inject_Z (Z.of_nat k)) (walkedFor k).
Proof.
  induction k as [| k IH]; intros Hk.
  - exact walking_keyHeld.
  - rewrite walkedFor_S.
    apply (walking_Qeq (inject_Z (Z.of_nat k) + 1)).
    + rewrite Nat2Z.inj_succ. unfold Z.succ. rewrite inject_Z_plus.
      reflexivity.
    + apply walking_frame; [| | apply IH; lia].
      * change 0 with (inject_Z 0). rewrite <- Zle_Qle. lia.
      * change 112 with (inject_Z 112). rewrite <- Zle_Qle. lia.
Qed.

Lemma walking_atTheDoor : walking 113 atTheDoor.
Proof. exact (walking_walkedFor 113 (Nat.le_refl _)). Qed.

Lemma reachable_atTheDoor : reachable (N := sampleNumerics) atTheDoor.
Proof.
  unfold atTheDoor, walkedFor, keyHeld, justStarted.
  apply reachable_run, reachable_step, reachable_step, reachable_init.
Qed.

Lemma walking_near (g : Game) :
  walking 113 g -> nearDoor (N := sampleNumerics) g = true.
Proof.
  intros W. destruct W.
  unfold nearDoor. cbn [Math_hypot sampleNumerics].
  apply Qltb_true. rewrite Qsqrt_down_near. nra.
Qed.

(** At the door with the countdown over: the frame is lost. *)
Lemma walking_late_frame (g : Game) :
  walking 113 g ->
  let g' := animate (N := sampleNumerics) lateFrame g in
  gameState g = PLAYING /\ level g = 0%nat /\
  nearDoor (N := sampleNumerics) g = true /\
  gameState g' = LOST /\ level g' = 0%nat /\
  playerRef g' = playerRef g /\
  ~ (gameState g' = PLAYING /\ level g' = 1%nat).
Proof.
  intros W. pose proof (walking_near g W) as Hnear. destruct W.
  assert (Hlate : 300 <= (Date_now lateFrame - startTimeRef g) / 1000).
  { cbn [Date_now lateFrame]. unfold Qdiv. change (/ 1000) with (1 # 1000).
    lra. }
  cbv zeta.
  rewrite (animate_lost (N := sampleNumerics) lateFrame g w_live0 Hlate).
  destruct (flashlightLogic_frame lateFrame g)
    as (_ & Fl & _ & _ & Fp & _).
  cbn [gameState level playerRef set_gameState set_isGameEnded].
  rewrite Fl, Fp.
  repeat split; auto.
  intros [H _]. discriminate H.
Qed.

(** At the door, the flashlight switched off, then two quick frames:
    the first advances the level and leaves the voices at 0.103, the
    second still hears them. *)
Lemma walking_dark_frames (g : Game) :
  walking 113 g ->
  let g0 := step (N := sampleNumerics) g LightButton in
  let g1 := step (N := sampleNumerics) g0 (Tick quickFrame centreTape) in
  let g2 := step (N := sampleNumerics) g1 (Tick quickFrame centreTape) in
  gameState g0 = PLAYING /\ level g0 = 0%nat /\
  nearDoor (N := sampleNumerics) g0 = true /\
  gameState g1 = PLAYING /\ level g1 = 1%nat /\
  flashlightTimerRef g1 = 0 /\
  (exists v, sanityAudioGainRef g1 = Some v /\ v == 0.103 /\ ~ v == 0) /\
  (exists v, sanityAudioGainRef g2 = Some v /\ ~ v == 0).
Proof.
  intros W. pose proof (walking_near g W) as Hnear. destruct W.
  destruct w_gain0 as (v & Hv & Hvq).
  assert (Hg0 : step (N := sampleNumerics) g LightButton
                = set_isFlashlightOn false g).
  { unfold step, toggleFlashlight. rewrite w_state0, w_light0. reflexivity. }
  cbv zeta. rewrite Hg0.
  set (g0 := set_isFlashlightOn false g).
  assert (Hlive0 : isGameEndedRef g0 = false) by exact w_live0.
  assert (Hnear0 : nearDoor (N := sampleNumerics) g0 = true) by exact Hnear.
  assert (Hs0 : gameState g0 = PLAYING) by exact w_state0.
  assert (Hl0 : level g0 = 0%nat) by exact w_level0.
  assert (Hv0 : sanityAudioGainRef g0 = Some v) by exact Hv.
  assert (Hoff0 : isFlashlightOnRef g0 = false) by reflexivity.
  assert (Htime : (Date_now quickFrame - startTimeRef g0) / 1000 < 300).
  { change (startTimeRef g0) with (startTimeRef g).
    cbn [Date_now quickFrame]. unfold Qdiv.
    change (/ 1000) with (1 # 1000). lra. }
  clearbody g0.
  pose proof (animate_door (N := sampleNumerics) quickFrame g0
                Hlive0 Htime Hnear0) as Ha.
  destruct (flashlightLogic_frame quickFrame g0)
    as (Fs & Fl & Fe & _ & _ & _ & _ & _ & _ & Fon).
  pose proof (flashlightLogic_gain quickFrame g0) as Fgain.
  rewrite Hoff0, Hv0 in Fgain. cbn [option_map] in Fgain.
  assert (Fl0 : level (flashlightLogic quickFrame g0) = 0%nat)
    by (rewrite Fl; exact Hl0).
  destruct (doorLogic_level0 quickFrame (flashlightLogic quickFrame g0) Fl0)
    as (Ds & Dl & _ & _ & _ & Dt & Dg & _).
  assert (Doff : isFlashlightOnRef
                   (doorLogic quickFrame (flashlightLogic quickFrame g0))
                 = false).
  { unfold doorLogic. rewrite Fl0. cbn. rewrite Fon. exact Hoff0. }
  rewrite <- Ha in Ds, Dl, Dt, Dg, Doff. clear Ha.
  assert (Hg1 : step (N := sampleNumerics) g0 (Tick quickFrame centreTape)
                = rerender (N := sampleNumerics) centreTape g0
                    (animate (N := sampleNumerics) quickFrame g0))
    by (unfold step; rewrite Hs0; reflexivity).
  rewrite Hg1.
  destruct (rerender_keeps (N := sampleNumerics) centreTape g0
              (animate (N := sampleNumerics) quickFrame g0))
    as (Rs & Rl & Rg & Rt & Ron & _).
  set (g1 := rerender (N := sampleNumerics) centreTape g0
               (animate (N := sampleNumerics) quickFrame g0)) in *.
  clearbody g1.
  assert (Hs1 : gameState g1 = PLAYING) by (rewrite Rs, Ds, Fs; exact Hs0).
  assert (Hg1v : sanityAudioGainRef g1 = Some (Qmax 0 (v - 0.01)))
    by (rewrite Rg, Dg; exact Fgain).
  assert (Hpos : Qmax 0 (v - 0.01) == 0.103)
    by (rewrite Q.max_r by lra; lra).
  assert (Hoff1 : isFlashlightOnRef g1 = false)
    by (rewrite Ron; exact Doff).
  destruct (animate_gain_off (N := sampleNumerics) quickFrame g1 _
              Hoff1 Hg1v) as (v2 & Hv2 & Hlow).
  destruct (rerender_keeps (N := sampleNumerics) centreTape g1
              (animate (N := sampleNumerics) quickFrame g1))
    as (_ & _ & Rg2 & _).
  repeat split; try assumption.
  - rewrite Rl. exact Dl.
  - rewrite Rt. exact Dt.
  - exists (Qmax 0 (v - 0.01)). split; [exact Hg1v |].
    split; [exact Hpos | lra].
  - exists v2. split; [| lra].
    unfold step. rewrite Hs1, Rg2. exact Hv2.
Qed.

(** * The theorems at work on concrete games *)

Lemma reachable_justStarted : reachable (N := sampleNumerics) justStarted.
Proof. unfold justStarted. apply reachable_step, reachable_init. Defined.

Lemma reachable_darkStart : reachable (N := sampleNumerics) darkStart.
Proof. unfold darkStart. apply reachable_run, reachable_init. Defined.

Lemma reachable_timedOut : reachable (N := sampleNumerics) timedOut.
Proof.
  unfold timedOut, run. cbn [fold_left].
  apply reachable_step, reachable_step, reachable_init.
Defined.

(** The corridor wall is hit by the circle around (0.12, 0). *)
Lemma checkCollision_strict_overlap_witness :
  checkCollision [corridorWall] 0.4 0.12 0 = true.
Proof.
  apply (proj1 (checkCollision_strict_overlap [corridorWall] 0.4 0.12 0)).
  constructor. unfold overlapsStrict, corridorWall; cbn. repeat split; lra.
Defined.

(** Pushing diagonally into the corridor wall slides along it; and the
    pillar, free at the old [x], blocks [z] in the column reached. *)
Lemma movement_per_axis_witness :
  (x (movement (N := sampleNumerics) diagonalInput [corridorWall]
        initialPlayer) = 0 /\
   z (movement (N := sampleNumerics) diagonalInput [corridorWall]
        initialPlayer) =
   0 - snd (moveDelta (N := sampleNumerics) diagonalInput initialPlayer)) /\
  (x (movement (N := sampleNumerics) diagonalInput [pillar] initialPlayer) =
   0 - fst (moveDelta (N := sampleNumerics) diagonalInput initialPlayer) /\
   z (movement (N := sampleNumerics) diagonalInput [pillar] initialPlayer)
   = 0).
Proof.
  split.
  - apply (movement_per_axis (N := sampleNumerics) diagonalInput
             [corridorWall] initialPlayer); reflexivity.
  - apply (movement_per_axis (N := sampleNumerics) diagonalInput
             [pillar] initialPlayer); reflexivity.
Defined.

(** On the ground the jump takes; in mid-air it does nothing. *)
Lemma jump_only_when_grounded_witness :
  vy (jump initialPlayer) = 0.15 /\ jump airborne = airborne.
Proof.
  split.
  - apply (jump_only_when_grounded initialPlayer).
    unfold initialPlayer; cbn. lra.
  - apply (jump_only_when_grounded airborne).
    unfold airborne; cbn. lra.
Defined.

(** Standing on the floor, gravity is clamped away; and a started game
    is above the floor after its first frame. *)
Lemma floor_bounds_y_witness :
  (y (gravity initialPlayer) = 0 /\ vy (gravity initialPlayer) = 0) /\
  (y (playerRef (animate (N := sampleNumerics) quickFrame relit)) = 0 /\
   vy (playerRef (animate (N := sampleNumerics) quickFrame relit)) = 0) /\
  0 <= y (playerRef (animate (N := sampleNumerics) quickFrame justStarted)).
Proof.
  split; [| split].
  - apply (proj1 (floor_bounds_y (N := sampleNumerics)) initialPlayer).
    unfold initialPlayer; cbn. lra.
  - apply (proj1 (proj2 (floor_bounds_y (N := sampleNumerics)))
             relit quickFrame);
      [reflexivity | vm_compute; reflexivity | vm_compute; reflexivity
      | vm_compute; reflexivity].
  - apply (proj2 (proj2 (floor_bounds_y (N := sampleNumerics)))).
    exact reachable_justStarted.
Defined.

(** Past 15 s with the light on the gain does not fall below the 0 it
    had; with the light off it does not rise above the 0.001 it had. *)
Lemma sanity_gain_monotone_witness :
  (exists v', sanityAudioGainRef
                (animate (N := sampleNumerics) slowFrame justStarted)
              = Some v' /\ 0 <= v' /\ v' <= 0.2) /\
  (exists v', sanityAudioGainRef
                (animate (N := sampleNumerics) slowFrame darkStart)
              = Some v' /\ v' <= 0.001 /\ 0 <= v').
Proof.
  split.
  - apply (sanity_gain_monotone (N := sampleNumerics) justStarted slowFrame 0
             reachable_justStarted eq_refl);
      [reflexivity | vm_compute; reflexivity].
  - apply (sanity_gain_monotone (N := sampleNumerics) darkStart slowFrame
             0.001 reachable_darkStart eq_refl).
    reflexivity.
Defined.

(** Relit 3 s into the cool-down, the voices at 0.19 are cut to 0. *)
Lemma cold_flashlight_silences_witness :
  sanityAudioGainRef relit = Some 0.19 /\
  sanityAudioGainRef (animate (N := sampleNumerics) quickFrame relit)
  = Some 0.
Proof.
  split; [reflexivity |].
  apply (cold_flashlight_silences (N := sampleNumerics) relit quickFrame 0.19);
    [reflexivity | reflexivity | vm_compute; discriminate | reflexivity].
Defined.

(** The level advance at the door step and the very first start. *)
Lemma transition_resets_timer_only_witness :
  flashlightTimerRef (animate (N := sampleNumerics) slowFrame doorStep) = 0 /\
  flashlightTimerRef
    (step (N := sampleNumerics) initialGame (Start 0 centreTape)) = 0.
Proof.
  split.
  - apply (proj1 (transition_resets_timer_only (N := sampleNumerics))
             doorStep slowFrame);
      [reflexivity | vm_compute; reflexivity | vm_compute; reflexivity
      | reflexivity].
  - apply (proj1 (proj2 (transition_resets_timer_only (N := sampleNumerics)))
             initialGame 0 centreTape).
    reflexivity.
Defined.

(** At the door on level 0 the level advances; on level 1 the game is
    won. *)
Lemma door_transitions_witness :
  (gameState (animate (N := sampleNumerics) slowFrame doorStep) = PLAYING /\
   level (animate (N := sampleNumerics) slowFrame doorStep) = 1%nat) /\
  gameState (animate (N := sampleNumerics) slowFrame lastDoorStep) = WON /\
  gameState (animate (N := sampleNumerics) lateFrame doorStep) = LOST.
Proof.
  assert (Helapsed : (Date_now slowFrame - startTimeRef doorStep) / 1000 < 300)
    by (vm_compute; reflexivity).
  assert (Hlate : 300 <= (Date_now lateFrame - startTimeRef doorStep) / 1000)
    by (vm_compute; discriminate).
  assert (Hnear : nearDoor (N := sampleNumerics) doorStep = true)
    by (vm_compute; reflexivity).
  split; [| split].
  - destruct (proj1 (door_transitions (N := sampleNumerics) doorStep slowFrame
                       eq_refl eq_refl Hnear) Helapsed) as [H0 _].
    destruct (H0 eq_refl) as (H1 & H2 & _). split; assumption.
  - destruct (proj1 (door_transitions (N := sampleNumerics) lastDoorStep
                       slowFrame eq_refl eq_refl Hnear) Helapsed) as [_ H1].
    apply H1. discriminate.
  - apply (proj2 (door_transitions (N := sampleNumerics) doorStep lateFrame
                    eq_refl eq_refl Hnear) Hlate).
Defined.

(** A started game whose countdown is over is lost by the next frame,
    and then no frame moves it. *)
Lemma timer_expiry_and_freeze_witness :
  gameState (step (N := sampleNumerics) justStarted
               (Tick lateFrame centreTape)) = LOST /\
  run (N := sampleNumerics) timedOut
    [Tick quickFrame centreTape; Tick slowFrame centreTape] = timedOut.
Proof.
  split.
  - apply (proj1 (timer_expiry_and_freeze (N := sampleNumerics) justStarted
                    reachable_justStarted) eq_refl lateFrame centreTape).
    vm_compute; discriminate.
  - apply (proj2 (timer_expiry_and_freeze (N := sampleNumerics) timedOut
                    reachable_timedOut)).
    + right; reflexivity.
    + repeat constructor.
Defined.

(** C2 (as stated) fails.  In the reachable game [atTheDoorDark] the
    player is at the door of level 0 with the flashlight off and the
    voices at 0.113.  The next frame advances the level and clears the
    timer, but the gain is 0.103, not 0, and it is still not 0 one frame
    into level 1.  Likewise the start handler leaves the gain of the
    lost game, 0.002, in place. *)
Lemma level_advance_keeps_gain :
  reachable (N := sampleNumerics) atTheDoorDark /\
  (let g0 := atTheDoorDark in
   let g1 := step (N := sampleNumerics) g0 (Tick quickFrame centreTape) in
   let g2 := step (N := sampleNumerics) g1 (Tick quickFrame centreTape) in
   gameState g0 = PLAYING /\ level g0 = 0%nat /\
   nearDoor (N := sampleNumerics) g0 = true /\
   gameState g1 = PLAYING /\ level g1 = 1%nat /\
   flashlightTimerRef g1 = 0 /\
   (exists v, sanityAudioGainRef g1 = Some v /\ v == 0.103 /\ ~ v == 0) /\
   (exists v, sanityAudioGainRef g2 = Some v /\ ~ v == 0)) /\
  (reachable (N := sampleNumerics) restarted /\
   gameState restarted = PLAYING /\ level restarted = 0%nat /\
   flashlightTimerRef restarted = 0 /\
   exists v, sanityAudioGainRef restarted = Some v /\
             v == 0.002 /\ ~ v == 0).
Proof.
  split; [| split].
  - unfold atTheDoorDark. apply reachable_step, reachable_atTheDoor.
  - unfold atTheDoorDark.
    exact (walking_dark_frames atTheDoor walking_atTheDoor).
  - split; [unfold restarted; apply reachable_run, reachable_init |].
    repeat (split; [vm_compute; reflexivity |]).
    eexists. split; [vm_compute; reflexivity |].
    split; [reflexivity | discriminate].
Qed.

(** C7 (as stated) fails.  The reachable game [atTheDoor] is [PLAYING]
    at level 0 with the player 1.44 from the door, yet the frame that
    finds the countdown over ends in [LOST], still at level 0 and with
    the player where it was: a door-proximity frame that is neither the
    level advance nor the win. *)
Lemma door_frame_can_lose :
  reachable (N := sampleNumerics) atTheDoor /\
  (let g' := animate (N := sampleNumerics) lateFrame atTheDoor in
   gameState atTheDoor = PLAYING /\ level atTheDoor = 0%nat /\
   nearDoor (N := sampleNumerics) atTheDoor = true /\
   gameState g' = LOST /\ level g' = 0%nat /\
   playerRef g' = playerRef atTheDoor /\
   ~ (gameState g' = PLAYING /\ level g' = 1%nat)).
Proof.
  split; [exact reachable_atTheDoor |].
  exact (walking_late_frame atTheDoor walking_atTheDoor).
Qed.

(** * More of the component

    Further properties of the code: the scenes the effect
    builds, the movement inside them, the jump, the session and level
    changes, the flashlight over several frames, the countdown display,
    the keyboard, touch and mouse handlers and the ambience buffer. *)

(** ** Scenes *)

Lemma Qabs_lt_iff (a b : Q) : Qabs a < b <-> - b < a /\ a < b.
Proof. apply Qabs_Qlt_condition. Qed.

Lemma Qabs_le_iff (a b : Q) : Qabs a <= b <-> - b <= a /\ a <= b.
Proof. apply Qabs_Qle_condition. Qed.

(** A wall whose centre is at least 4 away (on some axis) from the
    centre of a box of half-width 1.6 is clear of the whole box. *)
Lemma addWall_clear_box (cx cz rx rz rw rd px pz : Q) :
  (rw = 4 /\ rd = 1) \/ (rw = 1 /\ rd = 4) ->
  4 <= Qabs (rx - cx) \/ 4 <= Qabs (rz - cz) ->
  inBox cx cz 1.6 px pz ->
  hitsWall 0.4 px pz (addWall rx rz rw rd) = false.
Proof.
  intros Hshape Hfar [Hbx Hbz].
  apply Qabs_le_iff in Hbx. apply Qabs_le_iff in Hbz.
  apply not_true_iff_false. rewrite hitsWall_strict.
  unfold overlapsStrict, addWall, Qdiv; cbn [minX maxX minZ maxZ].
  change (/ 2) with (1 # 2).
  intros (H1 & H2 & H3 & H4).
  assert (Hx : Qabs (rx - cx) < 4)
    by (apply Qabs_lt_iff;
        destruct Hshape as [[-> ->] | [-> ->]]; split; lra).
  assert (Hz : Qabs (rz - cz) < 4)
    by (apply Qabs_lt_iff;
        destruct Hshape as [[-> ->] | [-> ->]]; split; lra).
  destruct Hfar; lra.
Qed.

Lemma innerWalls_shape_cases (c : bool) :
  let rw := if c then 4 else 1 in
  let rd := if Qeq_bool rw 1 then 4 else 1 in
  (rw = 4 /\ rd = 1) \/ (rw = 1 /\ rd = 4).
Proof. destruct c; [left | right]; split; reflexivity. Qed.

Lemma innerWalls_clear_spawn (rnd : nat -> Q) (dX dZ px pz : Q) (n k : nat) :
  inBox 0 0 1.6 px pz ->
  checkCollision (innerWalls rnd k dX dZ n) 0.4 px pz = false.
Proof.
  intros Hbox. revert k. induction n as [| n IH]; intros k; [reflexivity |].
  cbn [innerWalls].
  destruct (Qltb (Qabs (rnd k * 40 - 20)) 4 &&
            Qltb (Qabs (rnd (S k) * 40 - 20)) 4) eqn:Hcentre;
    [apply IH |].
  destruct (Qltb (Qabs (rnd k * 40 - 20 - dX)) 4 &&
            Qltb (Qabs (rnd (S k) * 40 - 20 - dZ)) 4);
    [apply IH |].
  cbn [checkCollision].
  rewrite (addWall_clear_box 0 0), IH; auto.
  - apply innerWalls_shape_cases.
  - apply andb_false_iff in Hcentre.
    destruct Hcentre as [H | H]; apply Qltb_false in H; [left | right].
    + rewrite (Qabs_wd _ (rnd k * 40 - 20)); [exact H | ring].
    + rewrite (Qabs_wd _ (rnd (S k) * 40 - 20)); [exact H | ring].
Qed.

Lemma innerWalls_clear_door (rnd : nat -> Q) (dX dZ px pz : Q) (n k : nat) :
  inBox dX dZ 1.6 px pz ->
  checkCollision (innerWalls rnd k dX dZ n) 0.4 px pz = false.
Proof.
  intros Hbox. revert k. induction n as [| n IH]; intros k; [reflexivity |].
  cbn [innerWalls].
  destruct (Qltb (Qabs (rnd k * 40 - 20)) 4 &&
            Qltb (Qabs (rnd (S k) * 40 - 20)) 4);
    [apply IH |].
  destruct (Qltb (Qabs (rnd k * 40 - 20 - dX)) 4 &&
            Qltb (Qabs (rnd (S k) * 40 - 20 - dZ)) 4) eqn:Hdoor;
    [apply IH |].
  cbn [checkCollision].
  rewrite (addWall_clear_box dX dZ), IH; auto.
  - apply innerWalls_shape_cases.
  - apply andb_false_iff in Hdoor.
    destruct Hdoor as [H | H]; apply Qltb_false in H; auto.
Qed.

(** X1: in every scene the whole square of half-width 1.6 around the
    spawn point is free for the player's radius 0.4, on either level
    and whatever the tape and the door. *)
Theorem spawn_zone_free (rnd : nat -> Q) (dX dZ px pz : Q) (n k : nat) :
  inBox 0 0 1.6 px pz ->
  checkCollision (outerWalls ++ innerWalls rnd k dX dZ n) 0.4 px pz = false.
Proof.
  intros Hbox.
  rewrite checkCollision_app, innerWalls_clear_spawn by assumption.
  destruct Hbox as [Hx Hz].
  apply Qabs_le_iff in Hx. apply Qabs_le_iff in Hz.
  rewrite outerWalls_far by lra. reflexivity.
Qed.

(** X2: no inner wall reaches into the square of half-width 1.6 around
    the door, so the door cannot be walled in at close range; with the
    door at most 22 from the centre on each axis the boundary walls are
    out of reach as well. *)
Theorem door_zone_free (rnd : nat -> Q) (dX dZ px pz : Q) (n k : nat) :
  inBox dX dZ 1.6 px pz ->
  checkCollision (innerWalls rnd k dX dZ n) 0.4 px pz = false /\
  (Qabs dX <= 22 -> Qabs dZ <= 22 ->
   checkCollision (outerWalls ++ innerWalls rnd k dX dZ n) 0.4 px pz
   = false).
Proof.
  intros Hbox. split; [apply innerWalls_clear_door; assumption |].
  intros HdX HdZ.
  rewrite checkCollision_app, innerWalls_clear_door by assumption.
  destruct Hbox as [Hx Hz].
  apply Qabs_le_iff in Hx. apply Qabs_le_iff in Hz.
  apply Qabs_le_iff in HdX. apply Qabs_le_iff in HdZ.
  rewrite outerWalls_far by lra. reflexivity.
Qed.

(** X3: when [Math.random()] stays in [0, 1), every inner wall placed
    has a 4 x 1 or 1 x 4 footprint and lies inside the square of
    half-width 22, clear of the boundary walls. *)
Theorem innerWalls_in_arena (rnd : nat -> Q) (dX dZ : Q) (n k : nat) :
  (forall i : nat, 0 <= rnd i /\ rnd i < 1) ->
  Forall innerShape (innerWalls rnd k dX dZ n).
Proof.
  intros Hrnd. revert k. induction n as [| n IH]; intros k;
    [constructor |].
  cbn [innerWalls].
  destruct (Qltb (Qabs (rnd k * 40 - 20)) 4 &&
            Qltb (Qabs (rnd (S k) * 40 - 20)) 4); [apply IH |].
  destruct (Qltb (Qabs (rnd k * 40 - 20 - dX)) 4 &&
            Qltb (Qabs (rnd (S k) * 40 - 20 - dZ)) 4); [apply IH |].
  constructor; [| apply IH].
  pose proof (Hrnd k) as [Hk0 Hk1].
  pose proof (Hrnd (S k)) as [Hs0 Hs1].
  unfold innerShape, addWall, Qdiv; cbn [minX maxX minZ maxZ].
  change (/ 2) with (1 # 2).
  destruct (Qltb 0.5 (rnd (S (S k)))); cbn [Qeq_bool];
    (split; [| repeat split; cbn; lra]).
  - left. split; cbn; ring.
  - right. split; cbn; ring.
Qed.

(** ** Movement inside a scene *)

Lemma resolveAxes_free (ws : list Wall) (dx dz : Q) (p : PlayerState) :
  checkCollision ws (radius p) (x p) (z p) = false ->
  checkCollision ws (radius (resolveAxes ws dx dz p))
    (x (resolveAxes ws dx dz p)) (z (resolveAxes ws dx dz p)) = false.
Proof.
  intros Hfree. unfold resolveAxes.
  destruct (checkCollision ws (radius p) (x p - dx) (z p)) eqn:Hx;
    cbn [negb].
  - destruct (checkCollision ws (radius p) (x p) (z p - dz)) eqn:Hz;
      cbn; assumption.
  - cbn [radius x z set_x].
    destruct (checkCollision ws (radius p) (x p - dx) (z p - dz)) eqn:Hz;
      cbn; assumption.
Qed.

(** A free point less than 25.9 from the centre on both axes is at most
    24.1 from it: the boundary walls fill the ring in between. *)
Lemma outerWalls_ring (px pz : Q) :
  checkCollision outerWalls 0.4 px pz = false ->
  Qabs px < 25.9 -> Qabs pz < 25.9 ->
  Qabs px <= 24.1 /\ Qabs pz <= 24.1.
Proof.
  intros Hfree Hx Hz.
  apply Qabs_lt_iff in Hx. apply Qabs_lt_iff in Hz.
  rewrite !Qabs_le_iff.
  apply not_true_iff_false in Hfree. rewrite checkCollision_Exists in Hfree.
  unfold outerWalls, addWall, Qdiv in Hfree.
  change (/ 2) with (1 # 2) in Hfree.
  rewrite !Exists_cons, Exists_nil in Hfree.
  unfold overlapsStrict in Hfree; cbn [minX maxX minZ maxZ] in Hfree.
  destruct (Qlt_le_dec px (-24.1)) as [Hw | Hw];
    [exfalso; apply Hfree; right; right; left; repeat split; lra |].
  destruct (Qlt_le_dec 24.1 px) as [He | He];
    [exfalso; apply Hfree; right; right; right; left; repeat split; lra |].
  destruct (Qlt_le_dec pz (-24.1)) as [Hs | Hs];
    [exfalso; apply Hfree; left; repeat split; lra |].
  destruct (Qlt_le_dec 24.1 pz) as [Hn | Hn];
    [exfalso; apply Hfree; right; left; repeat split; lra |].
  repeat split; lra.
Qed.

Lemma checkCollision_app_false (ws1 ws2 : list Wall) (r px pz : Q) :
  checkCollision (ws1 ++ ws2) r px pz = false ->
  checkCollision ws1 r px pz = false /\ checkCollision ws2 r px pz = false.
Proof. rewrite checkCollision_app. apply orb_false_iff. Qed.

(** X4: the boundary cannot be jumped.  In a wall set that starts with
    the boundary walls, a player of radius 0.4 at most 24.1 from the
    centre on both axes, moved by less than 1.8 per axis, is still at
    most 24.1 from the centre on both axes. *)
Theorem boundary_holds (inner : list Wall) (dx dz : Q) (p : PlayerState) :
  radius p = 0.4 ->
  Qabs (x p) <= 24.1 -> Qabs (z p) <= 24.1 ->
  Qabs dx < 1.8 -> Qabs dz < 1.8 ->
  Qabs (x (resolveAxes (outerWalls ++ inner) dx dz p)) <= 24.1 /\
  Qabs (z (resolveAxes (outerWalls ++ inner) dx dz p)) <= 24.1.
Proof.
  intros Hr Hx Hz Hdx Hdz.
  pose proof (resolveAxes_x (outerWalls ++ inner) dx dz p) as Rx.
  pose proof (resolveAxes_z (outerWalls ++ inner) dx dz p) as Rz.
  rewrite Hr in Rx, Rz.
  set (p' := resolveAxes (outerWalls ++ inner) dx dz p) in *. clearbody p'.
  pose proof Hx as Hx'. pose proof Hz as Hz'.
  apply Qabs_le_iff in Hx'. apply Qabs_le_iff in Hz'.
  apply Qabs_lt_iff in Hdx. apply Qabs_lt_iff in Hdz.
  assert (Hnx : Qabs (x p') <= 24.1).
  { destruct (checkCollision (outerWalls ++ inner) 0.4 (x p - dx) (z p))
      eqn:Hc; rewrite Rx; [exact Hx |].
    apply checkCollision_app_false in Hc. destruct Hc as [Hc _].
    apply (outerWalls_ring _ _ Hc); apply Qabs_lt_iff; lra. }
  split; [exact Hnx |].
  pose proof Hnx as Hnx'. apply Qabs_le_iff in Hnx'.
  destruct (checkCollision (outerWalls ++ inner) 0.4 (x p') (z p - dz))
    eqn:Hc; rewrite Rz; [exact Hz |].
  apply checkCollision_app_false in Hc. destruct Hc as [Hc _].
  apply (outerWalls_ring _ _ Hc); apply Qabs_lt_iff; lra.
Qed.

(** ** The jump *)

Lemma gravity_energy (p : PlayerState) (b : Q) :
  0 <= b -> jumpEnergy p <= b -> jumpEnergy (gravity p) <= b.
Proof.
  intros Hb Hp. unfold jumpEnergy, gravity in *; cbn.
  test_cases (y p + (vy p - 0.015)) 0; cbn.
  - lra.
  - assert (E : 0.03 * (y p + (vy p - 0.015)) +
                (vy p - 0.015) * (vy p - 0.015 - 0.015)
                == 0.03 * y p + vy p * (vy p - 0.015)) by ring.
    rewrite E. exact Hp.
Qed.

Lemma jump_energy (p : PlayerState) :
  jumpEnergy p <= 0.02055 -> jumpEnergy (jump p) <= 0.02055.
Proof.
  intros Hp. unfold jump.
  test_cases (y p) 0.01; [| exact Hp].
  unfold jumpEnergy; cbn. lra.
Qed.

Lemma Qsquare_nonneg (a : Q) : 0 <= a * a.
Proof.
  destruct (Qlt_le_dec a 0) as [Hneg | Hpos].
  - setoid_replace (a * a) with ((- a) * (- a)) by ring.
    apply Qmult_le_0_compat; lra.
  - apply Qmult_le_0_compat; lra.
Qed.

Lemma energy_apex (p : PlayerState) :
  jumpEnergy p <= 0.02055 -> y p <= 0.686875.
Proof.
  unfold jumpEnergy. intros Hp.
  pose proof (Qsquare_nonneg (vy p - 0.0075)) as Hsq.
  lra.
Qed.

Lemma jump_fields (p : PlayerState) :
  x (jump p) = x p /\ z (jump p) = z p /\ y (jump p) = y p /\
  radius (jump p) = radius p /\ speed (jump p) = speed p.
Proof. unfold jump. destruct (Qleb (y p) 0.01); cbn; auto. Qed.

Section MoreProperties.
Context {N : Numerics}.

(** ** How far a frame moves the player *)

(** X5: with both input axes in [-1, 1] (keyboard and joystick), sine
    and cosine of the yaw in [-1, 1] and the initial speed 0.12, a frame
    moves the player by at most 0.24 on each axis. *)
Theorem frame_step_bounded (input : InputState) (p : PlayerState) :
  speed p = 0.12 ->
  Qabs (fwd input) <= 1 -> Qabs (side input) <= 1 ->
  Qabs (Math_cos (rotY input)) <= 1 -> Qabs (Math_sin (rotY input)) <= 1 ->
  Qabs (fst (moveDelta input p)) <= 0.24 /\
  Qabs (snd (moveDelta input p)) <= 0.24.
Proof.
  intros Hs Hf Hd Hc Hn. unfold moveDelta. rewrite Hs. cbn [fst snd].
  apply Qabs_le_iff in Hf. apply Qabs_le_iff in Hd.
  apply Qabs_le_iff in Hc. apply Qabs_le_iff in Hn.
  set (f := fwd input) in *. set (s := side input) in *.
  set (c := Math_cos (rotY input)) in *.
  set (n := Math_sin (rotY input)) in *.
  assert (Hfc : -1 <= f * c /\ f * c <= 1) by (split; nra).
  assert (Hfn : -1 <= f * n /\ f * n <= 1) by (split; nra).
  assert (Hsc : -1 <= s * c /\ s * c <= 1) by (split; nra).
  assert (Hsn : -1 <= s * n /\ s * n <= 1) by (split; nra).
  rewrite !Qabs_le_iff. repeat split; lra.
Qed.

(** X6: with both input axes at 0 the movement of a frame leaves the
    player where it is, whatever the yaw and the walls. *)
Theorem idle_input_stays (input : InputState) (ws : list Wall)
        (p : PlayerState) :
  fwd input == 0 -> side input == 0 ->
  x (movement input ws p) == x p /\ z (movement input ws p) == z p /\
  y (movement input ws p) = y p /\ vy (movement input ws p) = vy p.
Proof.
  intros Hf Hs. rewrite movement_resolve.
  set (dx := fst (moveDelta input p)). set (dz := snd (moveDelta input p)).
  assert (Hdx : dx == 0)
    by (unfold dx, moveDelta; cbn [fst]; rewrite Hf, Hs; ring).
  assert (Hdz : dz == 0)
    by (unfold dz, moveDelta; cbn [snd]; rewrite Hf, Hs; ring).
  pose proof (resolveAxes_x ws dx dz p) as Rx.
  pose proof (resolveAxes_z ws dx dz p) as Rz.
  destruct (resolveAxes_y ws dx dz p) as (Ry & Rvy & _).
  rewrite Rx, Rz.
  repeat split; try assumption.
  - destruct (checkCollision _ _ _ _); [reflexivity | rewrite Hdx; ring].
  - destruct (checkCollision ws (radius p) _ (z p - dz));
      [reflexivity | rewrite Hdz; ring].
Qed.

(** ** What a frame leaves alone *)

Lemma doorLogic_frame (fr : Frame) (g : Game) :
  let g' := doorLogic fr g in
  inputRef g' = inputRef g /\ wallsRef g' = wallsRef g /\
  doorX g' = doorX g /\ doorZ g' = doorZ g /\
  isFlashlightOnRef g' = isFlashlightOnRef g /\
  sanityAudioGainRef g' = sanityAudioGainRef g /\
  y (playerRef g') = y (playerRef g) /\ vy (playerRef g') = vy (playerRef g) /\
  radius (playerRef g') = radius (playerRef g) /\
  speed (playerRef g') = speed (playerRef g) /\
  dir (playerRef g') = dir (playerRef g) /\
  pitch (playerRef g') = pitch (playerRef g).
Proof.
  unfold doorLogic. destruct (Nat.eqb (level g) 0); cbn; auto 15.
Qed.

Lemma animate_frame (fr : Frame) (g : Game) :
  let g' := animate fr g in
  inputRef g' = inputRef g /\ wallsRef g' = wallsRef g /\
  doorX g' = doorX g /\ doorZ g' = doorZ g /\
  isFlashlightOnRef g' = isFlashlightOnRef g /\
  radius (playerRef g') = radius (playerRef g) /\
  speed (playerRef g') = speed (playerRef g).
Proof.
  destruct (flashlightLogic_frame fr g)
    as (_ & _ & _ & _ & Fp & Fi & Fw & FdX & FdZ & Fon).
  destruct (doorLogic_frame fr (flashlightLogic fr g))
    as (Di & Dw & DdX & DdZ & Don & _ & _ & _ & Dr & Ds & _).
  destruct (resolveAxes_y (wallsRef g)
              (fst (moveDelta (inputRef g) (gravity (playerRef g))))
              (snd (moveDelta (inputRef g) (gravity (playerRef g))))
              (gravity (playerRef g))) as (_ & _ & Rr & Rs).
  destruct (gravity_ground (playerRef g)) as (_ & _ & Gs & Gr).
  destruct (animate_cases fr g) as [E | [E | [E | E]]]; rewrite E;
    cbv zeta; cbn [inputRef wallsRef doorX doorZ isFlashlightOnRef playerRef
                   set_gameState set_isGameEnded set_player];
    rewrite ?movement_resolve, ?Di, ?Dw, ?DdX, ?DdZ, ?Don, ?Dr, ?Ds,
      ?Rr, ?Rs, ?Gs, ?Gr, ?Fp, ?Fi, ?Fw, ?FdX, ?FdZ, ?Fon;
    auto 10.
Qed.

(** X7: the frame callback never writes the input, the walls, the door
    position or the flashlight switch, through none of its four exits;
    nor does it change the player's radius or speed. *)
Theorem animate_never_writes (fr : Frame) (g : Game) :
  inputRef (animate fr g) = inputRef g /\
  wallsRef (animate fr g) = wallsRef g /\
  doorX (animate fr g) = doorX g /\ doorZ (animate fr g) = doorZ g /\
  isFlashlightOnRef (animate fr g) = isFlashlightOnRef g /\
  radius (playerRef (animate fr g)) = radius (playerRef g) /\
  speed (playerRef (animate fr g)) = speed (playerRef g).
Proof. exact (animate_frame fr g). Qed.

(** ** The player stays placed *)

Lemma scene_origin_free (ws : list Wall) :
  ws = [] \/ isScene ws -> checkCollision ws 0.4 0 0 = false.
Proof.
  intros [-> | (rnd & dX & dZ & n & ->)]; [reflexivity |].
  rewrite checkCollision_app, innerWalls_clear_origin. reflexivity.
Qed.

Lemma placed_ext (g g' : Game) :
  playerRef g' = playerRef g -> wallsRef g' = wallsRef g ->
  (gameState g' = WON -> level g' = 1%nat) ->
  placed g -> placed g'.
Proof.
  intros Hp Hw Hwon [P1 P2 P3 P4 P5 P6].
  constructor; rewrite ?Hp, ?Hw; assumption.
Qed.

Lemma placed_initial : placed initialGame.
Proof.
  constructor; try reflexivity.
  - left; reflexivity.
  - unfold jumpEnergy, initialGame, initialPlayer; cbn [playerRef y vy]. lra.
  - discriminate.
Qed.

Lemma placed_jump (g : Game) : placed g -> placed (set_player (jump (playerRef g)) g).
Proof.
  intros [P1 P2 P3 P4 P5 P6].
  destruct (jump_fields (playerRef g)) as (Jx & Jz & _ & Jr & Js).
  constructor; cbn [playerRef wallsRef gameState level set_player];
    rewrite ?Jx, ?Jz, ?Jr, ?Js; try assumption.
  apply jump_energy; assumption.
Qed.

Lemma placed_respawn (p : PlayerState) (g g' : Game) :
  playerRef g' = p -> wallsRef g' = wallsRef g ->
  x p = 0 -> z p = 0 -> radius p = 0.4 -> speed p = 0.12 ->
  jumpEnergy p <= 0.02055 ->
  (gameState g' = WON -> level g' = 1%nat) ->
  placed g -> placed g'.
Proof.
  intros Hp Hw Hx Hz Hr Hs He Hwon [P1 P2 P3 P4 P5 P6].
  constructor; rewrite ?Hp, ?Hw, ?Hx, ?Hz; try assumption.
  apply scene_origin_free; assumption.
Qed.

Lemma placed_sceneEffect (rnd : nat -> Q) (g : Game) :
  (gameState g = PLAYING -> x (playerRef g) = 0 /\ z (playerRef g) = 0) ->
  placed g -> placed (sceneEffect rnd g).
Proof.
  intros Horigin P.
  destruct (gameState g) eqn:Hs;
    try (rewrite sceneEffect_idle by congruence; exact P).
  destruct (Horigin eq_refl) as [Hx Hz].
  destruct (sceneEffect_fields rnd g Hs)
    as (Es & El & _ & _ & Ep & _ & _ & _ & _ & Ew).
  set (g' := sceneEffect rnd g) in *. clearbody g'.
  destruct P as [P1 P2 P3 P4 P5 P6].
  assert (Hscene : isScene (wallsRef g'))
    by (rewrite Ew; do 4 eexists; reflexivity).
  constructor; rewrite ?Ep, ?Hx, ?Hz; try assumption.
  - right; exact Hscene.
  - apply scene_origin_free. right; exact Hscene.
  - rewrite Es. discriminate.
Qed.

Lemma placed_animate (fr : Frame) (g : Game) :
  consistent g -> placed g -> placed (animate fr g).
Proof.
  intros C P.
  destruct (flashlightLogic_frame fr g)
    as (Fs & Fl & _ & _ & Fp & Fi & Fw & _).
  destruct (animate_cases fr g) as [E | [E | [E | E]]]; rewrite E.
  - exact P.
  - apply (placed_ext g); cbn; auto. discriminate.
  - unfold doorLogic. rewrite Fl.
    destruct (Nat.eqb (level g) 0) eqn:Hl.
    + destruct P as [P1 P2 P3 P4 P5 P6].
      apply (placed_respawn
               (set_z 0 (set_x 0 (playerRef (flashlightLogic fr g)))) g);
        cbn; rewrite ?Fp, ?Fw; auto.
      * constructor; assumption.
    + apply (placed_ext g); cbn; auto.
      intros _. rewrite Fl.
      apply Nat.eqb_neq in Hl.
      destruct (two_levels g C); congruence.
  - destruct P as [P1 P2 P3 P4 P5 P6].
    destruct (gravity_ground (playerRef g)) as (Gx & Gz & Gs & Gr).
    rewrite movement_resolve.
    set (p1 := gravity (playerRef g)) in *.
    set (dx := fst (moveDelta (inputRef g) p1)).
    set (dz := snd (moveDelta (inputRef g) p1)).
    destruct (resolveAxes_y (wallsRef g) dx dz p1) as (Ry & Rvy & Rr & Rs).
    assert (Hfree : checkCollision (wallsRef g) (radius p1) (x p1) (z p1)
                    = false)
      by (rewrite Gx, Gz, Gr, P1; exact P4).
    apply (resolveAxes_free (wallsRef g) dx dz p1) in Hfree.
    rewrite Rr, Gr, P1 in Hfree.
    constructor; cbn [playerRef wallsRef gameState level set_player];
      rewrite ?Fw, ?Fs, ?Fl, ?Rr, ?Rs, ?Gr, ?Gs; try assumption.
    unfold jumpEnergy. rewrite Ry, Rvy.
    apply gravity_energy; [lra | exact P5].
Qed.

(** A frame that makes React build a new scene has put the player at
    the origin. *)
Lemma animate_respawn (fr : Frame) (g : Game) :
  sameDeps g (animate fr g) = false ->
  gameState (animate fr g) = PLAYING ->
  x (playerRef (animate fr g)) = 0 /\ z (playerRef (animate fr g)) = 0.
Proof.
  destruct (flashlightLogic_frame fr g) as (Fs & Fl & _).
  destruct (animate_cases fr g) as [E | [E | [E | E]]]; rewrite E.
  - rewrite sameDeps_refl. discriminate.
  - cbn. discriminate.
  - unfold doorLogic. rewrite Fl.
    destruct (Nat.eqb (level g) 0); cbn; [auto | discriminate].
  - unfold sameDeps. cbn [level gameState set_player].
    rewrite Fs, Fl, Nat.eqb_refl. destruct (gameState g); discriminate.
Qed.

Lemma handleKeyDown_fields (key code : string) (g : Game) :
  let g' := handleKeyDown key code g in
  gameState g' = gameState g /\ level g' = level g /\
  wallsRef g' = wallsRef g /\ isGameEndedRef g' = isGameEndedRef g /\
  (playerRef g' = playerRef g \/ playerRef g' = jump (playerRef g)).
Proof.
  unfold handleKeyDown, toggleFlashlight.
  destruct (String.eqb code "Space");
    destruct (String.eqb key "e" || String.eqb key "E"); cbn; auto 10.
Qed.

Lemma handleStart_walls (now : Q) (g : Game) :
  wallsRef (handleStart now g) = wallsRef g.
Proof.
  unfold handleStart, initAudio; cbn.
  destruct (sanityAudioGainRef g); reflexivity.
Qed.

Lemma placed_step (g : Game) (e : Event) :
  consistent g -> placed g -> placed (step g e).
Proof.
  intros C P.
  destruct e as [now rnd | | fr rnd | key code | key | | | i];
    destruct (gameState g) eqn:Hs;
    try (unfold step; rewrite Hs; exact P).
  - rewrite step_start by assumption.
    destruct (handleStart_fields now g)
      as (Es & _ & _ & _ & _ & Ep & _).
    apply placed_sceneEffect; [rewrite Ep; auto |].
    apply (placed_respawn initialPlayer g);
      [exact Ep | apply handleStart_walls | reflexivity | reflexivity
      | reflexivity | reflexivity | | | exact P].
    + unfold jumpEnergy, initialPlayer; cbn [y vy]. lra.
    + rewrite Es. discriminate.
  - unfold step; rewrite Hs. apply (placed_ext g); cbn; auto. discriminate.
  - unfold step; rewrite Hs. apply (placed_ext g); cbn; auto. discriminate.
  - unfold step; rewrite Hs. unfold rerender.
    destruct (sameDeps g (animate fr g)) eqn:Hd;
      [apply placed_animate; assumption |].
    apply placed_sceneEffect;
      [apply animate_respawn; assumption | apply placed_animate; assumption].
  - unfold step; rewrite Hs.
    rewrite animate_ended by (apply (over_frozen g C); auto).
    unfold rerender. rewrite sameDeps_refl. exact P.
  - unfold step; rewrite Hs.
    rewrite animate_ended by (apply (over_frozen g C); auto).
    unfold rerender. rewrite sameDeps_refl. exact P.
  - unfold step; rewrite Hs.
    destruct (handleKeyDown_fields key code g)
      as (Ks & Kl & Kw & _ & [Kp | Kp]).
    + apply (placed_ext g); auto.
      rewrite Ks, Hs. discriminate.
    + apply (placed_ext (set_player (jump (playerRef g)) g));
        [exact Kp | exact Kw | | apply placed_jump; exact P].
      rewrite Ks, Hs. discriminate.
  - unfold step; rewrite Hs. apply (placed_ext g); cbn; auto.
    rewrite Hs. discriminate.
  - unfold step; rewrite Hs. apply placed_jump; exact P.
  - unfold step; rewrite Hs. apply (placed_ext g); cbn; auto.
    rewrite Hs. discriminate.
  - unfold step; rewrite Hs. apply (placed_ext g); cbn; auto.
    rewrite Hs. discriminate.
Qed.

Lemma reachable_placed (g : Game) : reachable g -> placed g.
Proof.
  induction 1 as [| g e Hr IH]; [exact placed_initial |].
  apply placed_step; [apply reachable_consistent; exact Hr | exact IH].
Qed.

(** X8: the player is never inside a wall.  In every reachable game the
    circle of the player's radius around the player's position does not
    collide with the current wall set, and the radius and speed are the
    initial 0.4 and 0.12. *)
Theorem player_never_in_wall (g : Game) :
  reachable g ->
  checkCollision (wallsRef g) (radius (playerRef g))
    (x (playerRef g)) (z (playerRef g)) = false /\
  radius (playerRef g) = 0.4 /\ speed (playerRef g) = 0.12.
Proof.
  intros Hr. destruct (reachable_placed g Hr) as [P1 P2 _ P4 _ _].
  rewrite P1. auto.
Qed.

(** X9: the jump has a ceiling.  In every reachable game the player's
    height is between 0 and 0.686875, however often and whenever the
    jump is triggered. *)
Theorem jump_apex_bounded (g : Game) :
  reachable g ->
  0 <= y (playerRef g) /\ y (playerRef g) <= 0.686875.
Proof.
  intros Hr.
  pose proof (above_floor g (reachable_consistent g Hr)) as Hlo.
  pose proof (energy_apex _ (placed_energy g (reachable_placed g Hr))) as Hhi.
  split; lra.
Qed.

(** X10: the game is only won on level 1: no reachable game is in [WON]
    at any other level, so the escape always passes both doors. *)
Theorem won_only_on_level_1 (g : Game) :
  reachable g -> gameState g = WON ->
  level g = 1%nat /\ isGameEndedRef g = true.
Proof.
  intros Hr Hs. split.
  - exact (placed_won g (reachable_placed g Hr) Hs).
  - apply (over_frozen g (reachable_consistent g Hr)). left; exact Hs.
Qed.

(** ** Session and level changes *)

Lemma step_keeps_state (g : Game) (e : Event) :
  match e with
  | KeyDown _ _ | KeyUp _ | JumpButton | LightButton | Pointer _ => True
  | _ => False
  end ->
  gameState (step g e) = gameState g /\ level (step g e) = level g.
Proof.
  intros He. destruct e; try contradiction;
    unfold step; destruct (gameState g) eqn:Hs; rewrite ?Hs; auto;
    try (cbn; auto).
  destruct (handleKeyDown_fields key code g) as (Ks & Kl & _).
  rewrite Ks, Kl. auto.
Qed.

(** X11: the session only moves along MENU -> PLAYING -> WON or LOST ->
    MENU.  In a reachable game an event either leaves the session state
    as it is, or it is a start from the menu into [PLAYING], or a frame
    that takes [PLAYING] to [WON] or [LOST], or a restart from [WON] or
    [LOST] to the menu. *)
Theorem session_transitions (g : Game) (e : Event) :
  reachable g ->
  gameState (step g e) = gameState g \/
  (gameState g = MENU /\ gameState (step g e) = PLAYING /\
   exists now rnd, e = Start now rnd) \/
  (gameState g = PLAYING /\
   (gameState (step g e) = WON \/ gameState (step g e) = LOST) /\
   exists fr rnd, e = Tick fr rnd) \/
  ((gameState g = WON \/ gameState g = LOST) /\
   gameState (step g e) = MENU /\ e = Restart).
Proof.
  intros Hr. pose proof (reachable_consistent g Hr) as C.
  destruct e as [now rnd | | fr rnd | key code | key | | | i];
    try (left; apply step_keeps_state; exact I).
  - destruct (gameState g) eqn:Hs;
      try (left; unfold step; rewrite Hs; exact Hs).
    right; left. rewrite step_start by assumption.
    destruct (sceneEffect_keeps rnd (handleStart now g)) as (-> & _).
    destruct (handleStart_fields now g) as (-> & _).
    repeat split; eauto.
  - destruct (gameState g) eqn:Hs;
      try (left; unfold step; rewrite Hs; exact Hs);
      right; right; right; unfold step; rewrite Hs; cbn; auto.
  - destruct (gameState g) eqn:Hs;
      try (left; unfold step; rewrite Hs; exact Hs).
    + unfold step. rewrite Hs.
      destruct (rerender_keeps rnd g (animate fr g)) as (-> & _).
      destruct (flashlightLogic_frame fr g) as (Fs & Fl & _).
      destruct (animate_cases fr g) as [E | [E | [E | E]]]; rewrite E.
      * left; exact Hs.
      * right; right; left. cbn. eauto 10.
      * unfold doorLogic. destruct (Nat.eqb _ 0); cbn.
        -- left. rewrite Fs. exact Hs.
        -- right; right; left. eauto 10.
      * left. cbn. rewrite Fs. exact Hs.
    + left. rewrite step_tick_frozen; [exact Hs |].
      apply (over_frozen g C). left; exact Hs.
    + left. rewrite step_tick_frozen; [exact Hs |].
      apply (over_frozen g C). right; exact Hs.
Qed.

(** X12: the level only changes in two ways: a start from the menu sets
    it to 0, and a frame with the player near the door takes level 0 to
    level 1 and the player to the origin.  No event lowers the level
    during play or raises it past the next one. *)
Theorem level_changes (g : Game) (e : Event) :
  level (step g e) = level g \/
  (gameState g = MENU /\ level (step g e) = 0%nat /\
   exists now rnd, e = Start now rnd) \/
  (level g = 0%nat /\ level (step g e) = 1%nat /\
   nearDoor g = true /\
   x (playerRef (step g e)) = 0 /\ z (playerRef (step g e)) = 0 /\
   exists fr rnd, e = Tick fr rnd).
Proof.
  destruct e as [now rnd | | fr rnd | key code | key | | | i];
    try (left; apply step_keeps_state; exact I).
  - destruct (gameState g) eqn:Hs;
      try (left; unfold step; rewrite Hs; reflexivity).
    right; left. rewrite step_start by assumption.
    destruct (sceneEffect_keeps rnd (handleStart now g)) as (_ & -> & _).
    destruct (handleStart_fields now g) as (_ & -> & _).
    repeat split; eauto.
  - left. unfold step. destruct (gameState g); reflexivity.
  - assert (Hframe :
      level (animate fr g) = level g \/
      (level g = 0%nat /\ level (animate fr g) = 1%nat /\
       nearDoor g = true /\
       x (playerRef (animate fr g)) = 0 /\
       z (playerRef (animate fr g)) = 0)).
    { destruct (flashlightLogic_frame fr g) as (_ & Fl & _).
      unfold animate.
      destruct (isGameEndedRef g); [left; reflexivity |].
      destruct (Qleb _ 0); [left; cbn; exact Fl |].
      rewrite nearDoor_flashlightLogic.
      destruct (nearDoor g) eqn:Hdoor; [| left; cbn; exact Fl].
      unfold doorLogic. rewrite Fl.
      destruct (Nat.eqb (level g) 0) eqn:Hl; [| left; cbn; exact Fl].
      right. apply Nat.eqb_eq in Hl. cbn. auto. }
    assert (Hstep : step g (Tick fr rnd) = g \/
                    step g (Tick fr rnd) = rerender rnd g (animate fr g))
      by (unfold step; destruct (gameState g); auto).
    destruct Hstep as [-> | ->]; [left; reflexivity |].
    destruct (rerender_keeps rnd g (animate fr g))
      as (_ & -> & _ & _ & _ & -> & _).
    destruct Hframe as [H | (H1 & H2 & H3 & H4 & H5)]; [left; exact H |].
    right; right. repeat split; eauto.
Qed.

(** ** The flashlight over several frames *)

Lemma Qmin_ramp (v n : Q) :
  0 <= n ->
  Qmin 0.2 (Qmin 0.2 (v + 0.001) + 0.001 * n)
  == Qmin 0.2 (v + 0.001 * (n + 1)).
Proof.
  intros Hn.
  destruct (Qlt_le_dec 0.2 (v + 0.001)) as [Hhi | Hlo].
  - rewrite (Q.min_l 0.2 (v + 0.001)) by lra.
    rewrite !Q.min_l by lra. reflexivity.
  - rewrite (Q.min_r 0.2 (v + 0.001)) by lra.
    destruct (Qlt_le_dec 0.2 (v + 0.001 * (n + 1))) as [Hhi' | Hlo'].
    + rewrite !Q.min_l by lra. reflexivity.
    + rewrite !Q.min_r by lra. ring.
Qed.

Lemma Qmax_decay (v n : Q) :
  0 <= n ->
  Qmax 0 (Qmax 0 (v - 0.01) - 0.01 * n) == Qmax 0 (v - 0.01 * (n + 1)).
Proof.
  intros Hn.
  destruct (Qlt_le_dec (v - 0.01) 0) as [Hlo | Hhi].
  - rewrite (Q.max_l 0 (v - 0.01)) by lra.
    rewrite !Q.max_l by lra. reflexivity.
  - rewrite (Q.max_r 0 (v - 0.01)) by lra.
    destruct (Qlt_le_dec (v - 0.01 * (n + 1)) 0) as [Hlo' | Hhi'].
    + rewrite !Q.max_l by lra. reflexivity.
    + rewrite !Q.max_r by lra. ring.
Qed.

Lemma frames_count (A : Type) (a : A) (l : list A) :
  inject_Z (Z.of_nat (List.length (a :: l)))
  == inject_Z (Z.of_nat (List.length l)) + 1.
Proof.
  cbn [List.length]. rewrite Nat2Z.inj_succ. unfold Z.succ.
  rewrite inject_Z_plus. reflexivity.
Qed.

Lemma frames_count_nonneg (A : Type) (l : list A) :
  0 <= inject_Z (Z.of_nat (List.length l)).
Proof. change 0 with (inject_Z 0). rewrite <- Zle_Qle. lia. Qed.

Lemma flashlightFrames_cons (fr : Frame) (frs : list Frame) (g : Game) :
  flashlightFrames (fr :: frs) g = flashlightFrames frs (flashlightLogic fr g).
Proof. reflexivity. Qed.

(** X13: the voices ramp linearly to the ceiling.  With the flashlight
    on, the timer already past 15 s and the gain at [v <= 0.2], after
    any number [n] of frames of non-negative duration the gain is
    min (0.2, v + 0.001 n): 200 frames take it from silence to the
    ceiling, where it stays. *)
Theorem gain_ramp (frs : list Frame) (g : Game) (v : Q) :
  isFlashlightOnRef g = true ->
  15 < flashlightTimerRef g ->
  Forall (fun fr => 0 <= clock_getDelta fr) frs ->
  sanityAudioGainRef g = Some v -> v <= 0.2 ->
  exists v',
    sanityAudioGainRef (flashlightFrames frs g) = Some v' /\
    v' == Qmin 0.2 (v + 0.001 * inject_Z (Z.of_nat (List.length frs))).
Proof.
  intros Hon Hhot Hdt. revert g v Hon Hhot.
  induction Hdt as [| fr frs Hfr _ IH]; intros g v Hon Hhot Hv Hcap.
  - exists v. split; [exact Hv |]. cbn [List.length Z.of_nat].
    change (inject_Z 0) with 0. rewrite Q.min_r by lra. ring.
  - rewrite flashlightFrames_cons.
    destruct (flashlightLogic_frame fr g)
      as (_ & _ & _ & _ & _ & _ & _ & _ & _ & Fon).
    pose proof (flashlightLogic_timer fr g) as Ft.
    pose proof (flashlightLogic_gain fr g) as Fg.
    rewrite Hon in Ft, Fg.
    assert (Hhot' : Qltb 15 (flashlightTimerRef g + clock_getDelta fr) = true)
      by (apply Qltb_true; lra).
    rewrite Hhot', Hv in Fg. cbn [option_map] in Fg.
    destruct (IH (flashlightLogic fr g) (Qmin 0.2 (v + 0.001)))
      as (v' & Hv' & Heq).
    + rewrite Fon. exact Hon.
    + rewrite Ft. lra.
    + exact Fg.
    + apply Q.le_min_l.
    + exists v'. split; [exact Hv' |].
      rewrite Heq, frames_count.
      apply Qmin_ramp, frames_count_nonneg.
Qed.

(** X14: the voices fade linearly to silence.  With the flashlight off
    and the gain at [v >= 0], after any number [n] of frames the gain
    is max (0, v - 0.01 n): 20 frames silence the ceiling value, ten
    times faster than the ramp. *)
Theorem gain_decay (frs : list Frame) (g : Game) (v : Q) :
  isFlashlightOnRef g = false ->
  sanityAudioGainRef g = Some v -> 0 <= v ->
  exists v',
    sanityAudioGainRef (flashlightFrames frs g) = Some v' /\
    v' == Qmax 0 (v - 0.01 * inject_Z (Z.of_nat (List.length frs))).
Proof.
  revert g v.
  induction frs as [| fr frs IH]; intros g v Hoff Hv Hlo.
  - exists v. split; [exact Hv |]. cbn [List.length Z.of_nat].
    change (inject_Z 0) with 0. rewrite Q.max_r by lra. ring.
  - rewrite flashlightFrames_cons.
    destruct (flashlightLogic_frame fr g)
      as (_ & _ & _ & _ & _ & _ & _ & _ & _ & Fon).
    pose proof (flashlightLogic_gain fr g) as Fg.
    rewrite Hoff, Hv in Fg. cbn [option_map] in Fg.
    destruct (IH (flashlightLogic fr g) (Qmax 0 (v - 0.01)))
      as (v' & Hv' & Heq).
    + rewrite Fon. exact Hoff.
    + exact Fg.
    + apply Q.le_max_l.
    + exists v'. split; [exact Hv' |].
      rewrite Heq, frames_count.
      apply Qmax_decay, frames_count_nonneg.
Qed.

(** X15: the flashlight timer cools twice as fast as it heats and never
    goes negative.  A frame with the light off leaves the timer at
    least 0, and at 0 once the frame lasts half the timer; a frame with
    the light on followed by one half as long with the light off gives
    the timer back. *)
Theorem flashlightTimer_cooldown (fr : Frame) (g : Game) :
  (isFlashlightOnRef g = false ->
   0 <= flashlightTimerRef (flashlightLogic fr g) /\
   (flashlightTimerRef g <= clock_getDelta fr * 2 ->
    flashlightTimerRef (flashlightLogic fr g) == 0)) /\
  (isFlashlightOnRef g = true ->
   0 <= flashlightTimerRef g -> 0 <= clock_getDelta fr ->
   forall fr' : Frame,
     clock_getDelta fr' * 2 == clock_getDelta fr ->
     flashlightTimerRef
       (flashlightLogic fr' (set_isFlashlightOn false (flashlightLogic fr g)))
     == flashlightTimerRef g).
Proof.
  split.
  - intros Hoff. rewrite flashlightLogic_timer, Hoff.
    split; [apply Q.le_max_l |].
    intros Hlong. rewrite Q.max_l by lra. reflexivity.
  - intros Hon Ht Hdt fr' Hhalf.
    rewrite flashlightLogic_timer.
    cbn [isFlashlightOnRef flashlightTimerRef set_isFlashlightOn].
    rewrite flashlightLogic_timer, Hon.
    rewrite Q.max_r by lra. lra.
Qed.

End MoreProperties.

(** ** The countdown display *)

Lemma Qfloor_unique (q : Q) (n : Z) :
  inject_Z n <= q -> q < inject_Z (n + 1) -> Qfloor q = n.
Proof.
  intros Hlo Hhi.
  pose proof (Qfloor_le q) as Fl. pose proof (Qlt_floor q) as Fh.
  assert (H1 : inject_Z n < inject_Z (Qfloor q + 1)) by lra.
  assert (H2 : inject_Z (Qfloor q) < inject_Z (n + 1)) by lra.
  rewrite <- Zlt_Qlt in H1, H2. lia.
Qed.

Lemma inject_Z_sub (a b : Z) : inject_Z (a - b) == inject_Z a - inject_Z b.
Proof. unfold Z.sub. rewrite inject_Z_plus, inject_Z_opp. reflexivity. Qed.

Lemma remaining_nonneg (fr : Frame) (g : Game) : 0 <= remaining fr g.
Proof. unfold remaining. apply Q.le_max_l. Qed.

Lemma remaining_at_most (fr : Frame) (g : Game) :
  startTimeRef g <= Date_now fr -> remaining fr g <= 300.
Proof.
  intros Hnow. unfold remaining, Qdiv. change (/ 1000) with (1 # 1000).
  apply Q.max_lub; lra.
Qed.

(** X16: the display shows the whole seconds that remain.  The minutes
    and seconds it formats satisfy 60 m + s = floor (remaining) with
    0 <= s <= 59 and m >= 0; and when the clock has not gone back
    behind the start, m is at most 5 and 5 only with s = 0. *)
Theorem timer_display (fr : Frame) (g : Game) :
  let m := timerMinutes fr g in
  let s := timerSeconds fr g in
  (60 * m + s = Qfloor (remaining fr g))%Z /\
  (0 <= s <= 59)%Z /\ (0 <= m)%Z /\
  (startTimeRef g <= Date_now fr -> (m <= 5)%Z /\ (m = 5%Z -> s = 0%Z)).
Proof.
  unfold timerMinutes, timerSeconds, js_rem, Qtrunc.
  pose proof (remaining_nonneg fr g) as Hr.
  set (r := remaining fr g) in *.
  assert (Hq : 0 <= r / 60)
    by (unfold Qdiv; change (/ 60) with (1 # 60); lra).
  apply Qleb_true in Hq. rewrite Hq. apply Qleb_true in Hq.
  set (m := Qfloor (r / 60)).
  pose proof (Qfloor_le (r / 60)) as Ml.
  pose proof (Qlt_floor (r / 60)) as Mh.
  fold m in Ml, Mh. rewrite inject_Z_plus in Mh.
  change (inject_Z 1) with 1 in Mh.
  unfold Qdiv in Ml, Mh. change (/ 60) with (1 # 60) in Ml, Mh.
  assert (Hm0 : (0 <= m)%Z).
  { assert (H : inject_Z (-1) < inject_Z m)
      by (change (inject_Z (-1)) with (-1); lra).
    rewrite <- Zlt_Qlt in H. lia. }
  assert (Hs : Qfloor (r - 60 * inject_Z m) = (Qfloor r - 60 * m)%Z).
  { apply Qfloor_unique.
    - rewrite inject_Z_sub, inject_Z_mult.
      change (inject_Z 60) with 60.
      pose proof (Qfloor_le r). lra.
    - replace (Qfloor r - 60 * m + 1)%Z with (Qfloor r + 1 - 60 * m)%Z
        by lia.
      rewrite inject_Z_sub, inject_Z_mult.
      change (inject_Z 60) with 60.
      pose proof (Qlt_floor r). lra. }
  cbv zeta. rewrite Hs.
  assert (Hlo : (60 * m <= Qfloor r)%Z).
  { assert (H : inject_Z (60 * m) < inject_Z (Qfloor r + 1)).
    { rewrite inject_Z_mult. change (inject_Z 60) with 60.
      pose proof (Qlt_floor r). lra. }
    rewrite <- Zlt_Qlt in H. lia. }
  assert (Hhi : (Qfloor r < 60 * m + 60)%Z).
  { assert (H : inject_Z (Qfloor r) < inject_Z (60 * m + 60)).
    { rewrite inject_Z_plus, inject_Z_mult. change (inject_Z 60) with 60.
      pose proof (Qfloor_le r). lra. }
    rewrite <- Zlt_Qlt in H. exact H. }
  split; [lia |]. split; [lia |]. split; [exact Hm0 |].
  intros Hnow. pose proof (remaining_at_most fr g Hnow) as Hcap.
  fold r in Hcap.
  assert (Hr300 : (Qfloor r <= 300)%Z).
  { assert (H : inject_Z (Qfloor r) < inject_Z 301).
    { change (inject_Z 301) with 301. pose proof (Qfloor_le r). lra. }
    rewrite <- Zlt_Qlt in H. lia. }
  split; lia.
Qed.

(** ** Keyboard *)

Lemma Game_eta (g : Game) :
  mkGame (gameState g) (level g) (isFlashlightOnRef g) (startTimeRef g)
    (isGameEndedRef g) (playerRef g) (flashlightTimerRef g)
    (sanityAudioGainRef g) (inputRef g) (wallsRef g) (doorX g) (doorZ g)
    (pLight_intensity g) = g.
Proof. destruct g; reflexivity. Qed.

(** X17: a key that is none of w, s, a, d, e, E, with a code other than
    Space, changes nothing when pressed or released. *)
Theorem unbound_key_is_ignored (key code : string) (g : Game) :
  key <> "w"%string -> key <> "s"%string -> key <> "a"%string ->
  key <> "d"%string -> key <> "e"%string -> key <> "E"%string ->
  code <> "Space"%string ->
  handleKeyDown key code g = g /\ handleKeyUp key g = g.
Proof.
  intros Hw Hs Ha Hd He HE Hsp.
  apply String.eqb_neq in Hw, Hs, Ha, Hd, He, HE, Hsp.
  unfold handleKeyDown, handleKeyUp.
  rewrite Hw, Hs, Ha, Hd, He, HE, Hsp. cbn [orb].
  split; apply Game_eta.
Qed.

Lemma handleKeyDown_input (key code : string) (g : Game) :
  inputRef (handleKeyDown key code g) =
  let i := inputRef g in
  let i := if String.eqb key "w" then mkInput 1 (side i) (rotX i) (rotY i) else i in
  let i := if String.eqb key "s" then mkInput (-1) (side i) (rotX i) (rotY i) else i in
  let i := if String.eqb key "a" then mkInput (fwd i) 1 (rotX i) (rotY i) else i in
  if String.eqb key "d" then mkInput (fwd i) (-1) (rotX i) (rotY i) else i.
Proof.
  unfold handleKeyDown, toggleFlashlight.
  destruct (String.eqb code "Space");
    destruct (String.eqb key "e" || String.eqb key "E"); reflexivity.
Qed.

(** X18: the keyboard only ever writes -1, 0 or 1 on an axis and never
    turns the view; and releasing w or s stops the forward motion even
    while the opposite key is still held. *)
Theorem keyboard_axes (key code : string) (g : Game) :
  let down := inputRef (handleKeyDown key code g) in
  let up := inputRef (handleKeyUp key g) in
  (fwd down = fwd (inputRef g) \/ fwd down = 1 \/ fwd down = -1) /\
  (side down = side (inputRef g) \/ side down = 1 \/ side down = -1) /\
  rotX down = rotX (inputRef g) /\ rotY down = rotY (inputRef g) /\
  (fwd up = fwd (inputRef g) \/ fwd up = 0) /\
  (side up = side (inputRef g) \/ side up = 0) /\
  rotX up = rotX (inputRef g) /\ rotY up = rotY (inputRef g) /\
  fwd (inputRef (handleKeyUp "w" (handleKeyDown "s" code g))) = 0 /\
  fwd (inputRef (handleKeyUp "s" (handleKeyDown "w" code g))) = 0.
Proof.
  cbv zeta. rewrite handleKeyDown_input.
  unfold handleKeyUp. cbn [inputRef set_input].
  rewrite !handleKeyDown_input.
  set (i := inputRef g).
  split; [| split; [| split; [| split]]].
  - destruct (String.eqb key "w"), (String.eqb key "s"),
      (String.eqb key "a"), (String.eqb key "d"); cbn; auto.
  - destruct (String.eqb key "w"), (String.eqb key "s"),
      (String.eqb key "a"), (String.eqb key "d"); cbn; auto.
  - destruct (String.eqb key "w"), (String.eqb key "s"),
      (String.eqb key "a"), (String.eqb key "d"); reflexivity.
  - destruct (String.eqb key "w"), (String.eqb key "s"),
      (String.eqb key "a"), (String.eqb key "d"); reflexivity.
  - destruct (String.eqb key "w" || String.eqb key "s"),
      (String.eqb key "a" || String.eqb key "d"); cbn; auto 10.
Qed.

(** X19: the flashlight switch is an involution that touches nothing
    else: pressing the light button twice gives back the very same
    game, in any session state. *)
Theorem light_button_twice {N : Numerics} (g : Game) :
  step (step g LightButton) LightButton = g /\
  toggleFlashlight (toggleFlashlight g) = g.
Proof.
  split.
  - unfold step. destruct g as [s l on t e p ft gn i ws dx dz li].
    destruct s; cbn; try reflexivity.
    unfold toggleFlashlight; cbn. rewrite negb_involutive. reflexivity.
  - destruct g as [s l on t e p ft gn i ws dx dz li].
    unfold toggleFlashlight; cbn. rewrite negb_involutive. reflexivity.
Qed.

(** ** Touch and mouse *)

Lemma clamp_pitch (q : Q) :
  -1.5 <= Qmax (-1.5) (Qmin 1.5 q) /\ Qmax (-1.5) (Qmin 1.5 q) <= 1.5.
Proof.
  split; [apply Q.le_max_l |].
  apply Q.max_lub; [lra | apply Q.le_min_l].
Qed.

(** Splits a [tidy] goal into its four parts. *)
Ltac tidy_parts :=
  unfold tidy;
  cbn [touchIdLeft touchIdRight joyShown ctlInput fwd side rotX isNull negb];
  split; [| split; [| split]].

Lemma tidy_touchStart1 (w : Window) (c : Controls) (t : Touch) :
  tidy c -> tidy (touchStart1 w c t).
Proof.
  intros T. pose proof T as (Hj & Hax & Hlo & Hhi). unfold touchStart1.
  destruct (String.eqb (target_id t) "btn-jump" ||
            String.eqb (target_id t) "btn-light"); [exact T |].
  destruct (Qltb (clientX t) (innerWidth w / 2) &&
            Qltb (clientY t) (innerHeight w - 150) &&
            isNull (touchIdLeft c));
    cbn [touchIdLeft touchIdRight joyShown ctlInput];
    match goal with
    | |- context [if ?b then _ else _] => destruct b
    end;
    try exact T; tidy_parts;
    try assumption; try reflexivity; try discriminate.
Qed.

Lemma tidy_touchLook (c : Controls) (t : Touch) :
  tidy c -> tidy (touchLook c t).
Proof.
  intros T. pose proof T as (Hj & Hax & Hlo & Hhi). unfold touchLook.
  destruct (sameTouch t (touchIdRight c)); [| exact T].
  tidy_parts; try assumption; apply clamp_pitch.
Qed.

Lemma tidy_touchEnd1 (c : Controls) (t : Touch) :
  tidy c -> tidy (touchEnd1 c t).
Proof.
  intros T. pose proof T as (Hj & Hax & Hlo & Hhi). unfold touchEnd1.
  destruct (sameTouch t (touchIdLeft c));
    cbn [touchIdLeft touchIdRight joyShown ctlInput];
    match goal with
    | |- context [if ?b then _ else _] => destruct b
    end;
    try exact T; tidy_parts;
    try assumption; try reflexivity; auto.
Qed.

Lemma tidy_mouse (gs : GameState) (mx my : Q) (c : Controls) :
  tidy c -> tidy (handleMouseMove gs mx my c).
Proof.
  intros T. pose proof T as (Hj & Hax & Hlo & Hhi). unfold handleMouseMove.
  destruct gs; try exact T.
  destruct (isFalsy (touchIdRight c)); [| exact T].
  tidy_parts; try assumption; apply clamp_pitch.
Qed.

Lemma fold_left_invariant (A B : Type) (P : A -> Prop) (f : A -> B -> A)
      (l : list B) (a : A) :
  (forall a b, P a -> P (f a b)) -> P a -> P (fold_left f l a).
Proof.
  intros Hf. revert a.
  induction l as [| b l IH]; intros a Ha; [exact Ha |].
  cbn [fold_left]. apply IH, Hf, Ha.
Qed.

Section PointerProperties.
Context {N : Numerics} {G : Geometry}.

Lemma tidy_touchJoystick (c : Controls) (t : Touch) :
  tidy c -> tidy (touchJoystick c t).
Proof.
  intros T. pose proof T as (Hj & Hax & Hlo & Hhi). unfold touchJoystick.
  destruct (sameTouch t (touchIdLeft c)) eqn:Hsame; [| exact T].
  tidy_parts; try assumption.
  intros H. rewrite H in Hsame. discriminate Hsame.
Qed.

Lemma tidy_pointerStep (c : Controls) (e : PointerEvent) :
  tidy c -> tidy (pointerStep c e).
Proof.
  intros T. destruct e as [w ts | ts | ts | mx my]; cbn [pointerStep];
    unfold handleTouchStart, handleTouchMove, handleTouchEnd.
  - apply (fold_left_invariant _ _ tidy);
      [apply tidy_touchStart1 | exact T].
  - apply (fold_left_invariant _ _ tidy); [| exact T].
    intros a b Ha. apply tidy_touchLook, tidy_touchJoystick, Ha.
  - apply (fold_left_invariant _ _ tidy);
      [apply tidy_touchEnd1 | exact T].
  - apply tidy_mouse, T.
Qed.

(** X20: under touch and mouse events alone (the keyboard writes the
    axes too), starting from the refs as created, in whatever order the
    events arrive: the joystick is shown exactly while a joystick touch
    is held, the movement axes are 0 whenever none is held, and the
    pitch stays within [-1.5, 1.5]. *)
Theorem pointer_handlers_keep_tidy (es : list PointerEvent) :
  let c := fold_left pointerStep es initialControls in
  joyShown c = negb (isNull (touchIdLeft c)) /\
  (touchIdLeft c = None ->
   fwd (ctlInput c) = 0 /\ side (ctlInput c) = 0) /\
  -1.5 <= rotX (ctlInput c) /\ rotX (ctlInput c) <= 1.5.
Proof.
  apply (fold_left_invariant _ _ tidy pointerStep);
    [apply tidy_pointerStep |].
  unfold initialControls. tidy_parts.
  - reflexivity.
  - intros _. split; reflexivity.
  - cbn. lra.
  - cbn. lra.
Qed.

(** X21: the joystick output is normalised.  When the square root
    taken is not negative and sine and cosine of the stick's angle are
    in [-1, 1], a joystick move leaves both axes in [-1, 1], however
    far the finger has travelled. *)
Theorem joystick_normalised (c : Controls) (t : Touch) :
  let dx := clientX t - startX c in
  let dy := clientY t - startY c in
  sameTouch t (touchIdLeft c) = true ->
  0 <= Math_sqrt (dx * dx + dy * dy) ->
  Qabs (Math_cos (Math_atan2 dy dx)) <= 1 ->
  Qabs (Math_sin (Math_atan2 dy dx)) <= 1 ->
  Qabs (fwd (ctlInput (touchJoystick c t))) <= 1 /\
  Qabs (side (ctlInput (touchJoystick c t))) <= 1.
Proof.
  intros dx dy Hsame Hsqrt Hcos Hsin.
  unfold touchJoystick. rewrite Hsame. fold dx dy.
  cbn [ctlInput fwd side].
  set (dist := Qmin (Math_sqrt (dx * dx + dy * dy)) 60).
  assert (Hd : 0 <= dist /\ dist <= 60)
    by (split; [apply Q.min_glb; lra | apply Q.le_min_r]).
  apply Qabs_le_iff in Hcos. apply Qabs_le_iff in Hsin.
  set (co := Math_cos (Math_atan2 dy dx)) in *.
  set (si := Math_sin (Math_atan2 dy dx)) in *.
  assert (Hc : -60 <= co * dist /\ co * dist <= 60) by (split; nra).
  assert (Hs : -60 <= si * dist /\ si * dist <= 60) by (split; nra).
  unfold Qdiv. change (/ 60) with (1 # 60).
  rewrite !Qabs_le_iff. repeat split; lra.
Qed.

End PointerProperties.

(** X22: a touch never takes over an occupied slot, and touches on the
    jump and light buttons claim nothing.  An occupied joystick (look)
    slot keeps its identifier and its anchor through any touch start;
    a touch start made of button touches only leaves the controls as
    they are. *)
Theorem touch_slots_are_kept (w : Window) (ts : list Touch) (c : Controls) :
  (forall i, touchIdLeft c = Some i ->
     touchIdLeft (handleTouchStart w ts c) = Some i /\
     startX (handleTouchStart w ts c) = startX c /\
     startY (handleTouchStart w ts c) = startY c) /\
  (forall i, touchIdRight c = Some i ->
     touchIdRight (handleTouchStart w ts c) = Some i /\
     lastLookX (handleTouchStart w ts c) = lastLookX c /\
     lastLookY (handleTouchStart w ts c) = lastLookY c) /\
  (Forall (fun t => target_id t = "btn-jump"%string \/
                    target_id t = "btn-light"%string) ts ->
   handleTouchStart w ts c = c) /\
  ctlInput (handleTouchStart w ts c) = ctlInput c.
Proof.
  unfold handleTouchStart.
  split; [| split; [| split]].
  - intros i. revert c. induction ts as [| t ts IH]; intros c Hl;
      [auto |].
    cbn [fold_left].
    assert (H1 : touchIdLeft (touchStart1 w c t) = Some i /\
                 startX (touchStart1 w c t) = startX c /\
                 startY (touchStart1 w c t) = startY c).
    { unfold touchStart1. rewrite Hl. cbn [isNull].
      rewrite andb_false_r.
      destruct (_ || _); [auto |].
      match goal with
      | |- context [if ?b then _ else _] => destruct b
      end; cbn; auto. }
    destruct H1 as (E1 & E2 & E3).
    destruct (IH _ E1) as (F1 & F2 & F3).
    rewrite F1, F2, F3. auto.
  - intros i. revert c. induction ts as [| t ts IH]; intros c Hr;
      [auto |].
    cbn [fold_left].
    assert (H1 : touchIdRight (touchStart1 w c t) = Some i /\
                 lastLookX (touchStart1 w c t) = lastLookX c /\
                 lastLookY (touchStart1 w c t) = lastLookY c).
    { unfold touchStart1.
      destruct (_ || _); [auto |].
      destruct (Qltb (clientX t) (innerWidth w / 2) &&
                Qltb (clientY t) (innerHeight w - 150) &&
                isNull (touchIdLeft c));
        cbn [touchIdRight]; rewrite Hr; cbn [isNull];
        rewrite andb_false_r; cbn; auto. }
    destruct H1 as (E1 & E2 & E3).
    destruct (IH _ E1) as (F1 & F2 & F3).
    rewrite F1, F2, F3. auto.
  - intros Hb. induction Hb as [| t ts Ht _ IH]; [reflexivity |].
    cbn [fold_left].
    assert (H1 : touchStart1 w c t = c).
    { unfold touchStart1. destruct Ht as [-> | ->]; reflexivity. }
    rewrite H1. exact IH.
  - revert c. induction ts as [| t ts IH]; intros c; [reflexivity |].
    cbn [fold_left]. rewrite IH.
    unfold touchStart1.
    destruct (_ || _); [reflexivity |].
    destruct (Qltb (clientX t) (innerWidth w / 2) &&
              Qltb (clientY t) (innerHeight w - 150) &&
              isNull (touchIdLeft c));
      match goal with
      | |- context [if ?b then _ else _] => destruct b
      end; reflexivity.
Qed.

Lemma sameTouch_self (t : Touch) : sameTouch t (Some (identifier t)) = true.
Proof. apply Z.eqb_refl. Qed.

(** X23: a tap leaves no slot claimed.  With both slots free, a touch
    start followed by the end of the same touch leaves both slots free
    again and the view where it was; and the end of a touch that holds
    neither slot changes nothing. *)
Theorem tap_releases (w : Window) (t : Touch) (c : Controls) :
  (touchIdLeft c = None -> touchIdRight c = None ->
   let c' := handleTouchEnd [t] (handleTouchStart w [t] c) in
   touchIdLeft c' = None /\ touchIdRight c' = None /\
   rotX (ctlInput c') = rotX (ctlInput c) /\
   rotY (ctlInput c') = rotY (ctlInput c)) /\
  (sameTouch t (touchIdLeft c) = false ->
   sameTouch t (touchIdRight c) = false ->
   handleTouchEnd [t] c = c).
Proof.
  split.
  - destruct c as [l r sx sy lx ly js i].
    cbn [touchIdLeft touchIdRight]. intros -> ->.
    unfold handleTouchEnd, handleTouchStart, touchStart1, touchEnd1.
    cbn [fold_left touchIdLeft touchIdRight isNull ctlInput].
    destruct (_ || _); [cbn; auto |].
    rewrite !andb_true_r.
    destruct (Qltb (clientX t) (innerWidth w / 2) &&
              Qltb (clientY t) (innerHeight w - 150));
      cbn [touchIdLeft touchIdRight isNull ctlInput];
      rewrite ?andb_true_r;
      destruct (Qltb (innerWidth w / 2) (clientX t) &&
                Qltb (clientY t) (innerHeight w - 150));
      cbn [touchIdLeft touchIdRight sameTouch ctlInput];
      rewrite ?Z.eqb_refl;
      cbn [touchIdLeft touchIdRight sameTouch ctlInput rotX rotY];
      rewrite ?Z.eqb_refl;
      cbn [touchIdLeft touchIdRight sameTouch ctlInput rotX rotY]; auto.
  - intros Hl Hr. unfold handleTouchEnd. cbn [fold_left].
    unfold touchEnd1. rewrite Hl, Hr. reflexivity.
Qed.

(** X24: mouse look is suspended by a look touch, unless that touch
    has identifier 0.  With no look touch, or with one whose identifier
    is 0, a mouse move turns the view by 0.002 per unit and clamps the
    pitch; with any other look touch held, and outside [PLAYING], it
    changes nothing. *)
Theorem mouse_look_guard (mx my : Q) (c : Controls) :
  (touchIdRight c = None \/ touchIdRight c = Some 0%Z ->
   rotY (ctlInput (handleMouseMove PLAYING mx my c))
   = rotY (ctlInput c) - mx * 0.002 /\
   rotX (ctlInput (handleMouseMove PLAYING mx my c))
   = Qmax (-1.5) (Qmin 1.5 (rotX (ctlInput c) - my * 0.002))) /\
  (forall i, i <> 0%Z -> touchIdRight c = Some i ->
     handleMouseMove PLAYING mx my c = c) /\
  (forall gs, gs <> PLAYING -> handleMouseMove gs mx my c = c).
Proof.
  split; [| split].
  - intros [H | H]; unfold handleMouseMove; rewrite H; cbn; auto.
  - intros i Hi H. unfold handleMouseMove. rewrite H. cbn [isFalsy].
    apply Z.eqb_neq in Hi. rewrite Hi. reflexivity.
  - intros gs Hgs. unfold handleMouseMove.
    destruct gs; congruence.
Qed.

(** ** The ambience buffer *)

(** X25: the ambience samples stay within [-3.5, 3.5]: as long as
    [Math.random()] returns values in [0, 1] and the running output
    starts within [-1, 1] (it starts at 0), every sample written to the
    buffer has magnitude at most 3.5. *)
Theorem brownNoise_bounded (rs : list Q) (lastOut : Q) :
  Forall (fun r => 0 <= r /\ r <= 1) rs ->
  -1 <= lastOut -> lastOut <= 1 ->
  Forall (fun d => -3.5 <= d /\ d <= 3.5) (brownNoise rs lastOut) /\
  List.length (brownNoise rs lastOut) = List.length rs.
Proof.
  intros Hrs. revert lastOut.
  induction Hrs as [| r rs [Hr0 Hr1] _ IH]; intros lastOut Hlo Hhi;
    [split; [constructor | reflexivity] |].
  cbn [brownNoise List.length].
  set (out := (lastOut + 0.02 * (r * 2 - 1)) / 1.02).
  assert (Hout : -1 <= out /\ out <= 1).
  { unfold out, Qdiv. change (/ 1.02) with (100 # 102). split; lra. }
  destruct (IH out) as [IH1 IH2]; [apply Hout | apply Hout |].
  split; [constructor; [split; lra | exact IH1] | rewrite IH2; reflexivity].
Qed.

(** ** Building and starting *)

Lemma innerWalls_wellFormed (rnd : nat -> Q) (dX dZ : Q) (n k : nat) :
  Forall (fun w => minX w < maxX w /\ minZ w < maxZ w)
    (innerWalls rnd k dX dZ n).
Proof.
  revert k. induction n as [| n IH]; intros k; [constructor |].
  cbn [innerWalls].
  destruct (_ && _); [apply IH |].
  destruct (_ && _); [apply IH |].
  constructor; [| apply IH].
  unfold addWall, Qdiv; cbn [minX maxX minZ maxZ]. change (/ 2) with (1 # 2).
  destruct (Qltb 0.5 (rnd (S (S k)))); cbn [Qeq_bool]; split; cbn; lra.
Qed.

Section Building.
Context {N : Numerics}.

(** X26: what the effect stores in [wallsRef].  Run in [PLAYING] it
    stores the four boundary walls followed by the inner walls placed,
    between 4 and 39 walls in all (29 on level 0), each with
    [minX < maxX] and [minZ < maxZ]; in any other session state it
    stores nothing and changes nothing. *)
Theorem scene_walls (rnd : nat -> Q) (g : Game) :
  (gameState g = PLAYING ->
   let ws := wallsRef (sceneEffect rnd g) in
   firstn 4 ws = outerWalls /\
   (4 <= List.length ws <= 39)%nat /\
   (level g = 0%nat -> (List.length ws <= 29)%nat) /\
   Forall (fun w => minX w < maxX w /\ minZ w < maxZ w) ws) /\
  (gameState g <> PLAYING -> sceneEffect rnd g = g).
Proof.
  split; [| apply sceneEffect_idle].
  intros Hs.
  destruct (sceneEffect_fields rnd g Hs)
    as (_ & _ & _ & _ & _ & _ & _ & _ & _ & Ew).
  cbv zeta. rewrite Ew.
  set (inner := innerWalls rnd 2 (doorX (sceneEffect rnd g))
                  (doorZ (sceneEffect rnd g)) (wallCount (level g))).
  pose proof (innerWalls_length rnd (doorX (sceneEffect rnd g))
                (doorZ (sceneEffect rnd g)) (wallCount (level g)) 2) as Hlen.
  pose proof (innerWalls_wellFormed rnd (doorX (sceneEffect rnd g))
                (doorZ (sceneEffect rnd g)) (wallCount (level g)) 2) as Hwf.
  fold inner in Hlen, Hwf. clearbody inner.
  assert (Hcount : (wallCount (level g) <= 35)%nat)
    by (unfold wallCount; destruct (Nat.eqb (level g) 0); lia).
  rewrite length_app.
  change (List.length outerWalls) with 4%nat.
  repeat split.
  - lia.
  - lia.
  - intros Hl. rewrite Hl in Hlen. cbn in Hlen. lia.
  - apply Forall_app. split; [| exact Hwf].
    unfold outerWalls, addWall, Qdiv. change (/ 2) with (1 # 2).
    repeat constructor; cbn; lra.
Qed.

(** X27: a start forgets the previous game.  Started from the menu,
    whatever was played before, the game is the one a start of the
    freshly loaded component gives, except for the audio gain an
    earlier start left behind. *)
Theorem start_forgets_history (g : Game) (now : Q) (rnd : nat -> Q) :
  gameState g = MENU ->
  step g (Start now rnd) =
  set_sanityGain
    (match sanityAudioGainRef g with Some v => Some v | None => Some 0 end)
    (step initialGame (Start now rnd)).
Proof.
  intros Hs. rewrite !step_start by (assumption || reflexivity).
  destruct g as [s l fo ft ge p st ga i ws dx dz dr].
  unfold sceneEffect, handleStart, initAudio, initialGame.
  destruct ga; cbn -[innerWalls outerWalls initialPlayer initialInput];
    reflexivity.
Qed.

End Building.

(** ** The walk through level 1 *)

Lemma innerWalls_centreTape (k n : nat) (dX dZ : Q) :
  innerWalls centreTape (S (S k)) dX dZ n = [].
Proof.
  revert k. induction n as [| n IH]; intros k; [reflexivity |].
  cbn [innerWalls centreTape Nat.add].
  change (Qltb (Qabs (0.5 * 40 - 20)) 4) with true.
  cbn [andb]. apply IH.
Qed.

Lemma strolling_Qeq (q q' : Q) (g : Game) :
  q == q' -> strolling q g -> strolling q' g.
Proof.
  intros E W. destruct W. constructor; try assumption; lra.
Qed.

Lemma strolling_opens (g : Game) :
  walking 113 g ->
  strolling 0 (step (N := sampleNumerics) g (Tick slowFrame centreTape)).
Proof.
  intros W. pose proof (walking_near g W) as Hnear. destruct W.
  assert (Htime : (Date_now slowFrame - startTimeRef g) / 1000 < 300).
  { cbn [Date_now slowFrame]. unfold Qdiv. change (/ 1000) with (1 # 1000).
    lra. }
  pose proof (animate_door (N := sampleNumerics) slowFrame g
                w_live0 Htime Hnear) as Ha.
  destruct (flashlightLogic_frame slowFrame g)
    as (Fs & Fl & Fe & Ft & Fp & Fi & Fw & FdX & FdZ & Fon).
  set (f := flashlightLogic slowFrame g) in *. clearbody f.
  unfold step. rewrite w_state0, Ha.
  unfold rerender, sameDeps, doorLogic. rewrite Fl, w_level0.
  cbn [Nat.eqb level set_level set_player set_startTime set_flashlightTimer
       andb].
  unfold sceneEffect.
  cbn [gameState level set_level set_player set_startTime
       set_flashlightTimer set_isGameEnded].
  rewrite Fs, w_state0.
  change (wallCount 1) with 35%nat.
  rewrite innerWalls_centreTape, app_nil_r.
  constructor;
    cbn [gameState isGameEndedRef level startTimeRef playerRef inputRef
         wallsRef doorX doorZ set_scene set_isGameEnded set_level
         set_player set_startTime set_flashlightTimer
         x y z vy speed radius set_x set_z Date_now_door slowFrame];
    rewrite ?Fs, ?Fp, ?Fi; try assumption; reflexivity.
Qed.

Lemma strolling_frame (q : Q) (g : Game) :
  0 <= q -> q <= 112 -> strolling q g ->
  strolling (q + 1)
    (step (N := sampleNumerics) g (Tick slowFrame centreTape)).
Proof.
  intros Hq0 Hq1 W. destruct W.
  assert (Htime : (Date_now slowFrame - startTimeRef g) / 1000 < 300).
  { cbn [Date_now slowFrame]. unfold Qdiv. change (/ 1000) with (1 # 1000).
    lra. }
  assert (Hfar : nearDoor (N := sampleNumerics) g = false).
  { unfold nearDoor. cbn [Math_hypot sampleNumerics].
    apply Qltb_false. apply Qnot_lt_le. rewrite Qsqrt_down_near. nra. }
  pose proof (animate_move (N := sampleNumerics) slowFrame g
                s_live0 Htime Hfar) as Ha.
  destruct (flashlightLogic_frame slowFrame g)
    as (Fs & Fl & Fe & Ft & Fp & Fi & Fw & FdX & FdZ & Fon).
  set (p1 := gravity (playerRef g)) in *.
  destruct (gravity_ground (playerRef g)) as (Gx & Gz & Gs & Gr).
  destruct (gravity_clamp (playerRef g)) as (Gy & Gvy);
    [rewrite s_y0, s_vy0; lra |].
  fold p1 in Gx, Gz, Gs, Gr, Gy, Gvy.
  rewrite s_input0, s_walls0 in Ha.
  rewrite movement_resolve in Ha.
  destruct (sample_moveDelta_back p1) as (Hdx & Hdz);
    [rewrite Gs; exact s_speed0 |].
  set (dx := fst (moveDelta (N := sampleNumerics) (mkInput (-1) 0 0 0) p1))
    in *.
  set (dz := snd (moveDelta (N := sampleNumerics) (mkInput (-1) 0 0 0) p1))
    in *.
  pose proof (resolveAxes_x outerWalls dx dz p1) as Rx.
  pose proof (resolveAxes_z outerWalls dx dz p1) as Rz.
  destruct (resolveAxes_y outerWalls dx dz p1) as (Ry & Rvy & Rr & Rs).
  rewrite Gr, s_radius0, Gx, Gz in Rx.
  rewrite outerWalls_far in Rx by lra.
  rewrite Gr, s_radius0, Rx, Gz in Rz.
  rewrite outerWalls_far in Rz by lra.
  set (p2 := resolveAxes outerWalls dx dz p1) in *.
  assert (Hstep : step (N := sampleNumerics) g (Tick slowFrame centreTape)
                  = set_player p2 (flashlightLogic slowFrame g)).
  { unfold step. rewrite s_state0, Ha.
    unfold rerender, sameDeps. cbn [level gameState set_player].
    rewrite Fs, Fl, s_state0, Nat.eqb_refl. reflexivity. }
  rewrite Hstep.
  constructor; cbn [gameState isGameEndedRef level startTimeRef playerRef
                    inputRef wallsRef doorX doorZ set_player];
    rewrite ?Fs, ?Fl, ?Fe, ?Ft, ?Fi, ?Fw, ?FdX, ?FdZ; try assumption.
  - rewrite Rx. lra.
  - rewrite Rz. lra.
  - rewrite Ry. exact Gy.
  - rewrite Rvy. exact Gvy.
  - rewrite Rs, Gs. exact s_speed0.
  - rewrite Rr, Gr. exact s_radius0.
Qed.

Lemma strolledFor_S (k : nat) :
  strolledFor (S k) =
  step (N := sampleNumerics) (strolledFor k) (Tick slowFrame centreTape).
Proof.
  unfold strolledFor, run.
  rewrite <- Nat.add_1_r, repeat_app, fold_left_app. reflexivity.
Qed.

Lemma strolling_strolledFor (k : nat) :
  (k <= 113)%nat -> strolling (inject_Z (Z.of_nat k)) (strolledFor k).
Proof.
  induction k as [| k IH]; intros Hk.
  - exact (strolling_opens atTheDoor walking_atTheDoor).
  - rewrite strolledFor_S.
    apply (strolling_Qeq (inject_Z (Z.of_nat k) + 1)).
    + rewrite Nat2Z.inj_succ. unfold Z.succ. rewrite inject_Z_plus.
      reflexivity.
    + apply strolling_frame; [| | apply IH; lia].
      * change 0 with (inject_Z 0). rewrite <- Zle_Qle. lia.
      * change 112 with (inject_Z 112). rewrite <- Zle_Qle. lia.
Qed.

Lemma reachable_escaped : reachable (N := sampleNumerics) escaped.
Proof.
  unfold escaped, strolledFor, secondLevel.
  apply reachable_step, reachable_run, reachable_step, reachable_atTheDoor.
Qed.

Lemma strolling_strolled : strolling 113 (strolledFor 113).
Proof. exact (strolling_strolledFor 113 (Nat.le_refl _)). Qed.

Lemma strolling_wins (g : Game) :
  strolling 113 g ->
  gameState (step (N := sampleNumerics) g (Tick slowFrame centreTape)) = WON.
Proof.
  intros W. destruct W.
  assert (Htime : (Date_now slowFrame - startTimeRef g) / 1000 < 300).
  { cbn [Date_now slowFrame]. unfold Qdiv. change (/ 1000) with (1 # 1000).
    lra. }
  assert (Hnear : nearDoor (N := sampleNumerics) g = true).
  { unfold nearDoor. cbn [Math_hypot sampleNumerics].
    apply Qltb_true. rewrite Qsqrt_down_near. nra. }
  pose proof (animate_door (N := sampleNumerics) slowFrame g
                s_live0 Htime Hnear) as Ha.
  destruct (flashlightLogic_frame slowFrame g)
    as (Fs & Fl & _).
  unfold step. rewrite s_state0, Ha.
  rewrite doorLogic_last by (rewrite Fl, s_level0; discriminate).
  unfold rerender, sameDeps.
  cbn [gameState level set_gameState set_isGameEnded].
  rewrite Fl, s_state0, Nat.eqb_refl. cbn [andb].
  unfold sceneEffect. reflexivity.
Qed.

Lemma escaped_won : gameState escaped = WON.
Proof. exact (strolling_wins (strolledFor 113) strolling_strolled). Qed.

(** * The added properties on concrete inputs *)

(** A corner of the spawn square, on level 0 of the corner tape. *)
Lemma spawn_zone_free_witness :
  checkCollision (outerWalls ++ innerWalls cornerTape 2 0 15 25)
    0.4 1.5 (-1.5) = false.
Proof.
  apply (spawn_zone_free cornerTape 0 15 1.5 (-1.5) 25 2).
  unfold inBox. split; apply Qabs_Qle_condition; split; cbn; lra.
Defined.

(** One unit beside the door at (0, 15), on level 1 of the corner tape. *)
Lemma door_zone_free_witness :
  checkCollision (outerWalls ++ innerWalls cornerTape 2 0 15 35)
    0.4 1 14 = false.
Proof.
  assert (Hbox : inBox 0 15 1.6 1 14)
    by (unfold inBox; split; apply Qabs_Qle_condition; split; cbn; lra).
  apply (proj2 (door_zone_free cornerTape 0 15 1 14 35 2 Hbox));
    apply Qabs_Qle_condition; split; cbn; lra.
Defined.

(** The 25 walls the corner tape places on level 0. *)
Lemma innerWalls_in_arena_witness :
  Forall innerShape (innerWalls cornerTape 2 0 15 25).
Proof.
  apply (innerWalls_in_arena cornerTape 0 15 25 2).
  intros i. unfold cornerTape. split; lra.
Defined.

(** Level 0 of the first start has at most 29 walls. *)
Lemma scene_walls_witness :
  (List.length
     (wallsRef (sceneEffect (N := sampleNumerics) cornerTape
                  (handleStart 0 initialGame))) <= 29)%nat.
Proof.
  apply (proj1 (scene_walls (N := sampleNumerics) cornerTape
                  (handleStart 0 initialGame)));
    reflexivity.
Defined.

(** Pushed against the eastern boundary at x = 24, the player stays
    within 24.1. *)
Lemma boundary_holds_witness :
  Qabs (x (resolveAxes (outerWalls ++ []) (-0.12) 0
             (mkPlayer 24 0 0 0 0 0 0.12 0.4))) <= 24.1 /\
  Qabs (z (resolveAxes (outerWalls ++ []) (-0.12) 0
             (mkPlayer 24 0 0 0 0 0 0.12 0.4))) <= 24.1.
Proof.
  apply (boundary_holds [] (-0.12) 0 (mkPlayer 24 0 0 0 0 0 0.12 0.4));
    [reflexivity | | | |];
    apply Qabs_case; intros _; cbn [x z]; lra.
Defined.

(** Backwards and to the right with the view straight ahead. *)
Lemma frame_step_bounded_witness :
  Qabs (fst (moveDelta (N := sampleNumerics) diagonalInput initialPlayer))
  <= 0.24 /\
  Qabs (snd (moveDelta (N := sampleNumerics) diagonalInput initialPlayer))
  <= 0.24.
Proof.
  apply (frame_step_bounded (N := sampleNumerics) diagonalInput
           initialPlayer);
    [reflexivity | | | |]; vm_compute; discriminate.
Defined.

(** No key held next to the corridor wall. *)
Lemma idle_input_stays_witness :
  x (movement (N := sampleNumerics) initialInput [corridorWall]
       initialPlayer) == x initialPlayer /\
  z (movement (N := sampleNumerics) initialInput [corridorWall]
       initialPlayer) == z initialPlayer /\
  y (movement (N := sampleNumerics) initialInput [corridorWall]
       initialPlayer) = y initialPlayer /\
  vy (movement (N := sampleNumerics) initialInput [corridorWall]
        initialPlayer) = vy initialPlayer.
Proof.
  apply (idle_input_stays (N := sampleNumerics) initialInput [corridorWall]
           initialPlayer);
    reflexivity.
Defined.

(** The game that walked through both levels. *)
Lemma player_never_in_wall_witness :
  checkCollision (wallsRef escaped) (radius (playerRef escaped))
    (x (playerRef escaped)) (z (playerRef escaped)) = false /\
  radius (playerRef escaped) = 0.4 /\ speed (playerRef escaped) = 0.12.
Proof.
  apply (player_never_in_wall (N := sampleNumerics) escaped).
  exact reachable_escaped.
Defined.

(** Right after a jump from the start. *)
Lemma jump_apex_bounded_witness :
  0 <= y (playerRef (step (N := sampleNumerics) justStarted JumpButton)) /\
  y (playerRef (step (N := sampleNumerics) justStarted JumpButton))
  <= 0.686875.
Proof.
  apply (jump_apex_bounded (N := sampleNumerics)).
  apply reachable_step. exact reachable_justStarted.
Defined.

(** The play-through that ends in [WON] does so on level 1. *)
Lemma won_only_on_level_1_witness :
  level escaped = 1%nat /\ isGameEndedRef escaped = true.
Proof.
  apply (won_only_on_level_1 (N := sampleNumerics) escaped).
  - exact reachable_escaped.
  - exact escaped_won.
Defined.

(** The frame that finds the countdown over. *)
Lemma session_transitions_witness :
  let g' := step (N := sampleNumerics) justStarted
              (Tick lateFrame centreTape) in
  gameState g' = gameState justStarted \/
  (gameState justStarted = MENU /\ gameState g' = PLAYING /\
   exists now rnd, Tick lateFrame centreTape = Start now rnd) \/
  (gameState justStarted = PLAYING /\
   (gameState g' = WON \/ gameState g' = LOST) /\
   exists fr rnd, Tick lateFrame centreTape = Tick fr rnd) \/
  ((gameState justStarted = WON \/ gameState justStarted = LOST) /\
   gameState g' = MENU /\ Tick lateFrame centreTape = Restart).
Proof.
  apply (session_transitions (N := sampleNumerics) justStarted
           (Tick lateFrame centreTape)).
  exact reachable_justStarted.
Defined.

(** At the door step with the light back on: from 0.19 two frames
    reach the ceiling. *)
Lemma gain_ramp_witness :
  exists v',
    sanityAudioGainRef
      (flashlightFrames [slowFrame; quickFrame]
         (set_isFlashlightOn true doorStep)) = Some v' /\
    v' == Qmin 0.2 (0.19 + 0.001 * inject_Z (Z.of_nat 2)).
Proof.
  apply (gain_ramp [slowFrame; quickFrame]
           (set_isFlashlightOn true doorStep) 0.19);
    [reflexivity | vm_compute; reflexivity
    | repeat constructor; vm_compute; discriminate
    | reflexivity | vm_compute; discriminate].
Defined.

(** At the door step in the dark: two frames take 0.19 to 0.17. *)
Lemma gain_decay_witness :
  exists v',
    sanityAudioGainRef (flashlightFrames [quickFrame; quickFrame] doorStep)
    = Some v' /\
    v' == Qmax 0 (0.19 - 0.01 * inject_Z (Z.of_nat 2)).
Proof.
  apply (gain_decay [quickFrame; quickFrame] doorStep 0.19);
    [reflexivity | reflexivity | vm_compute; discriminate].
Defined.

(** In the dark the timer stays at least 0; 16 s of light followed by
    8 s of dark give the 3 s of [relit] back. *)
Lemma flashlightTimer_cooldown_witness :
  0 <= flashlightTimerRef (flashlightLogic quickFrame doorStep) /\
  flashlightTimerRef
    (flashlightLogic (mkFrame 8 1000 1000 0)
       (set_isFlashlightOn false (flashlightLogic slowFrame relit)))
  == flashlightTimerRef relit.
Proof.
  split.
  - apply (proj1 (flashlightTimer_cooldown quickFrame doorStep)).
    reflexivity.
  - apply (proj2 (flashlightTimer_cooldown slowFrame relit));
      [reflexivity | vm_compute; discriminate | vm_compute; discriminate
      | reflexivity].
Defined.

(** One second into the countdown the display is below 05:00. *)
Lemma timer_display_witness :
  (timerMinutes slowFrame justStarted <= 5)%Z.
Proof.
  apply (proj2 (proj2 (proj2 (timer_display slowFrame justStarted)))).
  vm_compute; discriminate.
Defined.

(** The key "q". *)
Lemma unbound_key_is_ignored_witness :
  handleKeyDown "q" "KeyQ" relit = relit /\ handleKeyUp "q" relit = relit.
Proof.
  apply (unbound_key_is_ignored "q" "KeyQ" relit); discriminate.
Defined.

(** A tap on the left half: the axes are 0 afterwards. *)
Lemma pointer_handlers_keep_tidy_witness :
  let c := fold_left (pointerStep (N := sampleNumerics) (G := sampleGeometry))
             [TouchStart phone [leftFinger]; TouchEnd [leftFinger]]
             initialControls in
  fwd (ctlInput c) = 0 /\ side (ctlInput c) = 0.
Proof.
  apply (proj1 (proj2 (pointer_handlers_keep_tidy (N := sampleNumerics)
                         (G := sampleGeometry)
                         [TouchStart phone [leftFinger];
                          TouchEnd [leftFinger]]))).
  reflexivity.
Defined.

(** The finger dragged 30 right and 40 down from where it landed. *)
Lemma joystick_normalised_witness :
  Qabs (fwd (ctlInput (touchJoystick (N := sampleNumerics)
                         (G := sampleGeometry) joystickHeld
                         (mkTouch 0 130 140 "")))) <= 1 /\
  Qabs (side (ctlInput (touchJoystick (N := sampleNumerics)
                          (G := sampleGeometry) joystickHeld
                          (mkTouch 0 130 140 "")))) <= 1.
Proof.
  apply (joystick_normalised (N := sampleNumerics) (G := sampleGeometry)
           joystickHeld (mkTouch 0 130 140 ""));
    [reflexivity | | |]; vm_compute; discriminate.
Defined.

(** A second finger on the left half does not take the joystick over. *)
Lemma touch_slots_are_kept_witness :
  touchIdLeft (handleTouchStart phone [mkTouch 2 50 50 ""] joystickHeld)
  = Some 0%Z /\
  startX (handleTouchStart phone [mkTouch 2 50 50 ""] joystickHeld)
  = startX joystickHeld /\
  startY (handleTouchStart phone [mkTouch 2 50 50 ""] joystickHeld)
  = startY joystickHeld.
Proof.
  apply (proj1 (touch_slots_are_kept phone [mkTouch 2 50 50 ""]
                  joystickHeld) 0%Z).
  reflexivity.
Defined.

(** A tap of the left finger on fresh controls. *)
Lemma tap_releases_witness :
  let c' := handleTouchEnd [leftFinger]
              (handleTouchStart phone [leftFinger] initialControls) in
  touchIdLeft c' = None /\ touchIdRight c' = None /\
  rotX (ctlInput c') = rotX (ctlInput initialControls) /\
  rotY (ctlInput c') = rotY (ctlInput initialControls).
Proof.
  apply (proj1 (tap_releases phone leftFinger initialControls));
    reflexivity.
Defined.

(** The mouse turns the view of fresh controls, and does nothing while
    the right finger, identifier 1, holds the look slot. *)
Lemma mouse_look_guard_witness :
  rotY (ctlInput (handleMouseMove PLAYING 10 0 initialControls))
  = rotY (ctlInput initialControls) - 10 * 0.002 /\
  handleMouseMove PLAYING 10 0
    (handleTouchStart phone [rightFinger] initialControls)
  = handleTouchStart phone [rightFinger] initialControls.
Proof.
  split.
  - apply (proj1 (mouse_look_guard 10 0 initialControls)).
    left; reflexivity.
  - apply (proj1 (proj2 (mouse_look_guard 10 0
                           (handleTouchStart phone [rightFinger]
                              initialControls))) 1%Z);
      [discriminate | reflexivity].
Defined.

(** Three samples from silence. *)
Lemma brownNoise_bounded_witness :
  Forall (fun d => -3.5 <= d /\ d <= 3.5) (brownNoise [0; 1; 0.5] 0) /\
  List.length (brownNoise [0; 1; 0.5] 0) = List.length [0; 1; 0.5].
Proof.
  apply (brownNoise_bounded [0; 1; 0.5] 0);
    [repeat constructor; vm_compute; discriminate
    | vm_compute; discriminate | vm_compute; discriminate].
Defined.

(** A lost game taken back to the menu, then started again. *)
Lemma start_forgets_history_witness :
  step (N := sampleNumerics)
    (step (N := sampleNumerics) timedOut Restart) (Start 400000 cornerTape)
  = set_sanityGain
      (match sanityAudioGainRef (step (N := sampleNumerics) timedOut Restart)
       with Some v => Some v | None => Some 0 end)
      (step (N := sampleNumerics) initialGame (Start 400000 cornerTape)).
Proof.
  apply (start_forgets_history (N := sampleNumerics)
           (step (N := sampleNumerics) timedOut Restart) 400000 cornerTape).
  vm_compute; reflexivity.
Defined.
